(** * hub-scrub: pagination and age-threshold reaping

    A shallow embedding of [cmd/hub-scrub/main.go]: the [Time] decoder, the
    paginated [List] and the reap loop of [main], together with the parts of
    Go's [encoding/json], [net/http] and [time] packages they call.

    Conventions.
    - A JSON document is a syntax tree ([jtext]); a byte slice is either such
      a document or not JSON at all ([Garbage]).  Lexing and string escapes
      are below the level of this model.
    - Library functions whose grammar is irrelevant to the program logic
      ([time.Parse], [time.ParseDuration], [strconv.ParseFloat],
      [strconv.ParseInt], URL validation in [http.NewRequest]) and the outside
      world (the HTTP transport, the wall clock) are fields of [Env].
    - Effects are threaded through an explicit [State] that logs every
      request, body close, clock reading and printed line. *)

From Stdlib Require Import List String Ascii ZArith Bool Lia PeanoNat.
From Stdlib Require Import OrderedTypeEx.
Import ListNotations.

Set Warnings "-register-all".

Local Open Scope string_scope.
Local Open Scope list_scope.
Local Open Scope Z_scope.

(** ** Errors *)

Inductive error : Type :=
| SyntaxError                          (* json: invalid text *)
| UnmarshalTypeError (what : string)   (* json: value does not fit the target *)
| ParseError (input : string)          (* time.Parse / time.ParseDuration *)
| URLError (url : string)              (* http.NewRequest *)
| NetError (code : nat)                (* transport or body-read failure *).

(** The decoder's [saveError]: the earliest soft error is the one kept. *)
Definition saveError (saved : option error) (e : error) : option error :=
  match saved with
  | Some _ => saved
  | None => Some e
  end.

Definition mergeError (saved later : option error) : option error :=
  match saved with
  | Some _ => saved
  | None => later
  end.

(** ** JSON *)

Module JSON.

(** A JSON text, members of an object in document order. *)
Inductive jtext : Type :=
| JNull
| JBool (b : bool)
| JNumber (lit : string)
| JString (s : string)
| JArray (elems : list jtext)
| JObject (members : list (string * jtext)).

(** A [[]byte] handed to [json.Unmarshal]. *)
Inductive Bytes : Type :=
| Garbage
| Text (j : jtext).

(** A finite [float64], identified with its shortest decimal rendering (the
    one [json.Marshal] prints). *)
Definition float64 := string.

(** What decoding into [interface{}] builds: [nil], [bool], [float64],
    [string], [[]interface{}] and [map[string]interface{}].  A map is kept
    as an association list with distinct keys in increasing order. *)
Inductive value : Type :=
| VNil
| VBool (b : bool)
| VFloat (f : float64)
| VString (s : string)
| VSlice (elems : list value)
| VMap (entries : list (string * value)).

(** [m[k] = v] on the ordered association list. *)
Fixpoint map_insert {A : Type} (k : string) (v : A)
    (m : list (string * A)) : list (string * A) :=
  match m with
  | [] => [(k, v)]
  | (k', v') :: rest =>
      match String.compare k k' with
      | Lt => (k, v) :: m
      | Eq => (k, v) :: rest
      | Gt => (k', v') :: map_insert k v rest
      end
  end.

(** Members assigned one after the other: the last duplicate wins and the
    keys come out sorted. *)
Definition map_of_members {A : Type} (ms : list (string * A))
    : list (string * A) :=
  fold_left (fun acc kv => map_insert (fst kv) (snd kv) acc) ms [].

Section Decode.

(** [strconv.ParseFloat(lit, 64)]: [None] when out of range. *)
Variable ParseFloat : string -> option float64.

(** [decodeState.valueInterface]: a number that does not fit a float64 is
    a saved (soft) type error and decodes as [nil]. *)
Fixpoint valueInterface (j : jtext) : value * option error :=
  match j with
  | JNull => (VNil, None)
  | JBool b => (VBool b, None)
  | JNumber lit =>
      match ParseFloat lit with
      | Some f => (VFloat f, None)
      | None => (VNil, Some (UnmarshalTypeError ("number " ++ lit)%string))
      end
  | JString s => (VString s, None)
  | JArray elems =>
      let fix arrayInterface (l : list jtext) : list value * option error :=
        match l with
        | [] => ([], None)
        | x :: rest =>
            let (v, e) := valueInterface x in
            let (vs, es) := arrayInterface rest in
            (v :: vs, mergeError e es)
        end in
      let (vs, e) := arrayInterface elems in (VSlice vs, e)
  | JObject members =>
      let fix objectInterface (l : list (string * jtext))
          : list (string * value) * option error :=
        match l with
        | [] => ([], None)
        | (k, x) :: rest =>
            let (v, e) := valueInterface x in
            let (kvs, es) := objectInterface rest in
            ((k, v) :: kvs, mergeError e es)
        end in
      let (kvs, e) := objectInterface members in
      (VMap (map_of_members kvs), e)
  end.

End Decode.

(** [json.Marshal] of a value built by [valueInterface]: maps are printed
    with their keys sorted; it cannot fail on such a value. *)
Fixpoint marshal (v : value) : jtext :=
  match v with
  | VNil => JNull
  | VBool b => JBool b
  | VFloat f => JNumber f
  | VString s => JString s
  | VSlice elems => JArray (map marshal elems)
  | VMap entries =>
      JObject (map_of_members (map (fun kv => (fst kv, marshal (snd kv))) entries))
  end.

End JSON.

Import JSON.

(** Keys strictly increasing. *)
Fixpoint increasing (ks : list string) : Prop :=
  match ks with
  | [] => True
  | k :: rest => Forall (fun k' => String.compare k k' = Lt) rest /\ increasing rest
  end.

Definition keys {A : Type} (m : list (string * A)) : list string := map fst m.

(** ** Time *)

(** An instant, in nanoseconds relative to the Unix epoch. *)
Definition time_Time := Z.

(** [time.Duration]: a signed 64-bit count of nanoseconds. *)
Definition Duration := Z.

Definition minDuration : Duration := - 2 ^ 63.
Definition maxDuration : Duration := 2 ^ 63 - 1.

(** [time.Time{}]: 1 January of year 1, 00:00 UTC. *)
Definition zeroTime : time_Time := -62135596800 * 1000000000.

(** [t.Sub(u)]: the difference, saturated to the range of a [Duration]. *)
Definition time_Sub (t u : time_Time) : Duration :=
  if t - u <? minDuration then minDuration
  else if maxDuration <? t - u then maxDuration
  else t - u.

(** ** HTTP *)

Inductive Method : Type := MethodGet | MethodPost | MethodDelete.

Record Request : Type := mkRequest {
  req_method : Method;
  req_url : string;
  req_header : list (string * string);
  req_body : option jtext
}.

(** A response: the status code and what [ioutil.ReadAll] on its body
    returns. *)
Record Response : Type := mkResponse {
  StatusCode : Z;
  Body : error + Bytes
}.

Definition StatusNoContent : Z := 204.

(** ** The environment: library oracles and the outside world *)

Record Env : Type := mkEnv {
  (* time.Parse(time.RFC3339Nano, s) *)
  time_Parse : string -> option time_Time;
  (* time.ParseDuration(s) *)
  time_ParseDuration : string -> option Duration;
  (* strconv.ParseFloat(s, 64) *)
  strconv_ParseFloat : string -> option float64;
  (* strconv.ParseInt(s, 10, 64) *)
  strconv_ParseInt : string -> option Z;
  (* whether http.NewRequest accepts the URL *)
  url_Parse : string -> bool;
  (* client.Do: the outcome of the n-th request sent by the process *)
  roundTrip : nat -> Request -> error + Response;
  (* time.Now: the n-th reading of the wall clock *)
  clock : nat -> time_Time
}.

(** ** The program's types *)

Record AuthenticationResponse : Type := mkAuth {
  Token : string
}.

Record Page : Type := mkPage {
  Count : Z;
  Next : string;
  Previous : string;
  Results : list value
}.

(** [type Time struct { time.Time }] *)
Record Time : Type := mkTime {
  Time_Time : time_Time
}.

Record Tag : Type := mkTag {
  Name : string;
  LastUpdated : Time
}.

Definition TagList := list Tag.

Definition zeroPage : Page := mkPage 0 "" "" [].
Definition zeroTag : Tag := mkTag "" (mkTime zeroTime).

(** ** Typed decoding ([encoding/json]) *)

(** Outcome of decoding into a target that is updated in place: either the
    decoder ran to the end, possibly with a saved type error, or an
    [Unmarshaler] failed and decoding stopped there.  Both carry the target
    as the decoder left it. *)
Inductive decoded (A : Type) : Type :=
| Done (target : A) (saved : option error)
| Abort (target : A) (e : error).

Arguments Done {A} target saved.
Arguments Abort {A} target e.

Definition toLower (c : ascii) : ascii :=
  let n := nat_of_ascii c in
  if ((65 <=? n) && (n <=? 90))%nat then ascii_of_nat (n + 32) else c.

Fixpoint lower (s : string) : string :=
  match s with
  | EmptyString => EmptyString
  | String c rest => String (toLower c) (lower rest)
  end.

(** The fold under which [encoding/json] compares an object key with the
    JSON name of a struct field ([foldName], [equalFoldRight]), on the bytes
    of the UTF-8 text: an ASCII letter counts as its lower-case form, the
    long s (U+017F, bytes 197 191) as [s] and the Kelvin sign (U+212A, bytes
    226 132 170) as [k]; these two are the only runes outside ASCII that
    fold onto an ASCII letter, and every other byte counts as itself. *)
Fixpoint foldName (s : string) : string :=
  match s with
  | EmptyString => EmptyString
  | String a rest =>
      match rest with
      | EmptyString => String (toLower a) EmptyString
      | String b rest' =>
          if ((nat_of_ascii a =? 197) && (nat_of_ascii b =? 191))%nat then
            String "s" (foldName rest')
          else
            match rest' with
            | EmptyString => String (toLower a) (foldName rest)
            | String c rest'' =>
                if ((nat_of_ascii a =? 226) && (nat_of_ascii b =? 132)
                    && (nat_of_ascii c =? 170))%nat then
                  String "k" (foldName rest'')
                else String (toLower a) (foldName rest)
            end
      end
  end.

(** A key selects the struct field whose JSON name it equals, exactly or
    under the fold. *)
Definition fieldMatch (key field : string) : bool :=
  String.eqb (foldName key) (foldName field).

(** A JSON value stored into a [string]: [null] leaves it alone, anything
    but a string is a saved type error. *)
Definition storeString (j : jtext) (cur : string) (saved : option error)
    : string * option error :=
  match j with
  | JString s => (s, saved)
  | JNull => (cur, saved)
  | _ => (cur, saveError saved (UnmarshalTypeError "string"))
  end.

(** [json.Unmarshal(data, &s)] for a [string] target. *)
Definition json_Unmarshal_string (data : Bytes) (cur : string)
    : string * option error :=
  match data with
  | Garbage => (cur, Some SyntaxError)
  | Text j => storeString j cur None
  end.

Section Program.

Variable E : Env.

(** [func (t *Time) UnmarshalJSON(data []byte) error]: the receiver after
    the call and the error returned. *)
Definition Time_UnmarshalJSON (t : Time) (data : Bytes)
    : Time * option error :=
  match json_Unmarshal_string data "" with
  | (_, Some err) => (t, Some err)
  | (s, None) =>
      match time_Parse E s with
      | None => (t, Some (ParseError s))
      | Some parsed => (mkTime parsed, None)
      end
  end.

(** Members of a JSON object stored into a [Tag], in document order. *)
Fixpoint objectTag (members : list (string * jtext)) (cur : Tag)
    (saved : option error) : decoded Tag :=
  match members with
  | [] => Done cur saved
  | (k, x) :: rest =>
      if fieldMatch k "name" then
        let (s, saved') := storeString x (Name cur) saved in
        objectTag rest (mkTag s (LastUpdated cur)) saved'
      else if fieldMatch k "last_updated" then
        match Time_UnmarshalJSON (LastUpdated cur) (Text x) with
        | (t, None) => objectTag rest (mkTag (Name cur) t) saved
        | (t, Some e) => Abort (mkTag (Name cur) t) e
        end
      else objectTag rest cur saved
  end.

(** One JSON value stored into a [Tag]. *)
Definition valueTag (j : jtext) (cur : Tag) : decoded Tag :=
  match j with
  | JNull => Done cur None
  | JObject members => objectTag members cur None
  | _ => Done cur (Some (UnmarshalTypeError "Tag"))
  end.

(** Elements of a JSON array stored into a slice of [Tag]: element [i]
    goes into the slice's [i]-th element when it has one and into a fresh
    zero [Tag] otherwise; the slice ends where the array ends. *)
Fixpoint arrayTagList (elems : list jtext) (cur : TagList)
    : decoded TagList :=
  match elems with
  | [] => Done [] None
  | x :: rest =>
      match valueTag x (hd zeroTag cur) with
      | Abort t e => Abort (t :: tl cur) e
      | Done t saved =>
          match arrayTagList rest (tl cur) with
          | Done ts saved' => Done (t :: ts) (mergeError saved saved')
          | Abort ts e => Abort (t :: ts) e
          end
      end
  end.

(** [json.Unmarshal(data, results)] with [results] a [*TagList]: the
    collection after the call and the error returned. *)
Definition json_Unmarshal_TagList (data : Bytes) (cur : TagList)
    : TagList * option error :=
  match data with
  | Garbage => (cur, Some SyntaxError)
  | Text JNull => ([], None)
  | Text (JArray elems) =>
      match arrayTagList elems cur with
      | Done ts saved => (ts, saved)
      | Abort ts e => (ts, Some e)
      end
  | Text _ => (cur, Some (UnmarshalTypeError "TagList"))
  end.

(** An array stored into [[]interface{}]. *)
Fixpoint arrayResults (elems : list jtext) : list value * option error :=
  match elems with
  | [] => ([], None)
  | x :: rest =>
      let (v, e) := valueInterface (strconv_ParseFloat E) x in
      let (vs, es) := arrayResults rest in
      (v :: vs, mergeError e es)
  end.

(** Members of a JSON object stored into a [Page]. *)
Fixpoint objectPage (members : list (string * jtext)) (cur : Page)
    (saved : option error) : Page * option error :=
  match members with
  | [] => (cur, saved)
  | (k, x) :: rest =>
      if fieldMatch k "count" then
        match x with
        | JNull => objectPage rest cur saved
        | JNumber lit =>
            match strconv_ParseInt E lit with
            | Some n =>
                objectPage rest
                  (mkPage n (Next cur) (Previous cur) (Results cur)) saved
            | None =>
                objectPage rest cur
                  (saveError saved (UnmarshalTypeError "int"))
            end
        | _ => objectPage rest cur (saveError saved (UnmarshalTypeError "int"))
        end
      else if fieldMatch k "next" then
        let (s, saved') := storeString x (Next cur) saved in
        objectPage rest (mkPage (Count cur) s (Previous cur) (Results cur))
          saved'
      else if fieldMatch k "previous" then
        let (s, saved') := storeString x (Previous cur) saved in
        objectPage rest (mkPage (Count cur) (Next cur) s (Results cur))
          saved'
      else if fieldMatch k "results" then
        match x with
        | JNull =>
            objectPage rest (mkPage (Count cur) (Next cur) (Previous cur) [])
              saved
        | JArray elems =>
            let (vs, e) := arrayResults elems in
            objectPage rest (mkPage (Count cur) (Next cur) (Previous cur) vs)
              (mergeError saved e)
        | _ =>
            objectPage rest cur
              (saveError saved (UnmarshalTypeError "[]interface {}"))
        end
      else objectPage rest cur saved
  end.

(** [page := &Page{}; json.Unmarshal(body, page)]: the page is used only
    when no error is returned. *)
Definition json_Unmarshal_Page (body : Bytes) : error + Page :=
  match body with
  | Garbage => inl SyntaxError
  | Text JNull => inr zeroPage
  | Text (JObject members) =>
      match objectPage members zeroPage None with
      | (p, None) => inr p
      | (_, Some e) => inl e
      end
  | Text _ => inl (UnmarshalTypeError "Page")
  end.

(** Members of a JSON object stored into an [AuthenticationResponse]. *)
Fixpoint objectAuth (members : list (string * jtext))
    (cur : AuthenticationResponse) (saved : option error)
    : AuthenticationResponse * option error :=
  match members with
  | [] => (cur, saved)
  | (k, x) :: rest =>
      if fieldMatch k "token" then
        let (s, saved') := storeString x (Token cur) saved in
        objectAuth rest (mkAuth s) saved'
      else objectAuth rest cur saved
  end.

Definition json_Unmarshal_Auth (body : Bytes)
    : error + AuthenticationResponse :=
  match body with
  | Garbage => inl SyntaxError
  | Text JNull => inr (mkAuth "")
  | Text (JObject members) =>
      match objectAuth members (mkAuth "") None with
      | (a, None) => inr a
      | (_, Some e) => inl e
      end
  | Text _ => inl (UnmarshalTypeError "AuthenticationResponse")
  end.

End Program.

(** ** Effects *)

(** A line printed with [fmt.Println]. *)
Inductive line : Type :=
| UnableToParseThreshold (e : error)
| UnableToCreateAuthenticationRequest (e : error)
| UnableToAuthenticate (e : error)
| UnableToReadAuthenticationResponse (e : error)
| UnableToUnmarshalAuthenticationResponse (e : error)
| UnableToListTags (e : error)
| DeletingTag (name : string) (age : Duration)
| UnableToCreateDeleteRequest (e : error)
| UnableToPerformDeleteRequest (e : error)
| UnexpectedStatusCode (code : Z).

Inductive event : Type :=
| EvDo (n : nat) (r : Request)   (* client.Do(r), the n-th request sent *)
| EvClose (n : nat)              (* Body.Close() on the response to request n *)
| EvNow (n : nat)                (* time.Now(), the n-th reading *)
| EvPrint (l : line).

Record State : Type := mkState {
  nDo : nat;          (* requests sent so far *)
  nNow : nat;         (* clock readings so far *)
  log : list event    (* what happened, oldest first *)
}.

Definition initState : State := mkState 0 0 [].

Definition emit (st : State) (e : event) : State :=
  mkState (nDo st) (nNow st) (log st ++ [e]).

Definition Println (st : State) (l : line) : State := emit st (EvPrint l).

Definition Close (st : State) (n : nat) : State := emit st (EvClose n).

Section Run.

Variable E : Env.

(** [client.Do(req)] *)
Definition client_Do (req : Request) (st : State)
    : (error + Response) * nat * State :=
  (roundTrip E (nDo st) req, nDo st,
   mkState (S (nDo st)) (nNow st) (log st ++ [EvDo (nDo st) req])).

(** [time.Since(t)] *)
Definition time_Since (t : time_Time) (st : State) : Duration * State :=
  (time_Sub (clock E (nNow st)) t,
   mkState (nDo st) (S (nNow st)) (log st ++ [EvNow (nNow st)])).

Definition getRequest (token url : string) : Request :=
  mkRequest MethodGet url
    [("Content-Type", "application/json"); ("Authorization", ("JWT " ++ token)%string)]
    None.

(** [json.Marshal(resultsUntyped)]: on values decoded from JSON it always
    succeeds. *)
Definition json_Marshal (vs : list value) : error + Bytes :=
  inr (Text (JArray (map marshal vs))).

(** The [for] loop of [List], at most [fuel] requests: [None] when the
    loop is still running after [fuel] requests, otherwise the error
    returned from inside the loop or the accumulator at [break]. *)
Fixpoint List_loop (fuel : nat) (token url : string)
    (resultsUntyped : list value) (st : State)
    : option ((error + list value) * State) :=
  if String.eqb url "" then Some (inr resultsUntyped, st)
  else
    match fuel with
    | O => None
    | S fuel' =>
        if negb (url_Parse E url) then Some (inl (URLError url), st)
        else
          match client_Do (getRequest token url) st with
          | (inl err, _, st1) => Some (inl err, st1)
          | (inr rsp, n, st1) =>
              match Body rsp with
              | inl err => Some (inl err, st1)
              | inr body =>
                  let st2 := Close st1 n in
                  match json_Unmarshal_Page E body with
                  | inl err => Some (inl err, st2)
                  | inr page =>
                      List_loop fuel' token (Next page)
                        (resultsUntyped ++ Results page) st2
                  end
              end
          end
    end.

(** [func List(token, url string, results interface{}) error], called
    with a [*TagList]: the collection after the call, the error returned
    and the state. *)
Definition List (fuel : nat) (token url : string) (results : TagList)
    (st : State) : option (TagList * option error * State) :=
  match List_loop fuel token url [] st with
  | None => None
  | Some (inl err, st') => Some (results, Some err, st')
  | Some (inr resultsUntyped, st') =>
      match json_Marshal resultsUntyped with
      | inl err => Some (results, Some err, st')
      | inr resultsRaw =>
          let (results', err) := json_Unmarshal_TagList E resultsRaw results in
          Some (results', err, st')
      end
  end.

(** Command-line flags [-u], [-p], [-i], [-t]. *)
Record Flags : Type := mkFlags {
  username : string;
  password : string;
  image : string;
  thresholdStr : string
}.

Definition tagsURL (f : Flags) : string :=
  "https://hub.docker.com/v2/repositories/" ++ username f ++ "/" ++ image f
    ++ "/tags".

Definition deleteURL (f : Flags) (name : string) : string :=
  "https://hub.docker.com/v2/repositories/" ++ username f ++ "/" ++ image f
    ++ "/tags/" ++ name ++ "/".

Definition deleteRequest (f : Flags) (token name : string) : Request :=
  mkRequest MethodDelete (deleteURL f name)
    [("Authorization", ("JWT " ++ token)%string)] None.

(** The body of the reap loop for one tag: [Some code] when the process
    exits there, [None] when the loop goes on. *)
Definition reapTag (f : Flags) (token : string) (threshold : Duration)
    (tag : Tag) (st : State) : option Z * State :=
  let (age, st1) := time_Since (Time_Time (LastUpdated tag)) st in
  if threshold <? age then
    let (age', st2) := time_Since (Time_Time (LastUpdated tag)) st1 in
    let st3 := Println st2 (DeletingTag (Name tag) age') in
    if negb (url_Parse E (deleteURL f (Name tag))) then
      (Some 1,
       Println st3 (UnableToCreateDeleteRequest (URLError (deleteURL f (Name tag)))))
    else
      match client_Do (deleteRequest f token (Name tag)) st3 with
      | (inl err, _, st4) =>
          (Some 1, Println st4 (UnableToPerformDeleteRequest err))
      | (inr rsp, n, st4) =>
          let st5 := Close st4 n in
          if StatusCode rsp =? StatusNoContent then (None, st5)
          else (None, Println st5 (UnexpectedStatusCode (StatusCode rsp)))
      end
  else (None, st1).

(** [for _, tag := range tags { ... }] *)
Fixpoint reap (f : Flags) (token : string) (threshold : Duration)
    (tags : TagList) (st : State) : option Z * State :=
  match tags with
  | [] => (None, st)
  | tag :: rest =>
      match reapTag f token threshold tag st with
      | (Some code, st') => (Some code, st')
      | (None, st') => reap f token threshold rest st'
      end
  end.

Definition loginURL : string := "https://hub.docker.com/v2/users/login/".

Definition loginRequest (f : Flags) : Request :=
  mkRequest MethodPost loginURL [("Content-Type", "application/json")]
    (Some (JObject [("password", JString (password f));
                    ("username", JString (username f))])).

(** [func main()] from the point where [flag.Parse()] has returned the
    four flags (main.go:149-229): the exit code and the final state, or
    [None] when the pagination loop is still running after [fuel] requests.
    A command line that [flag.Parse] rejects ends the process before this
    point, with status 2, and is not part of this function.  [json.Marshal]
    of the credentials, a [map[string]string], cannot fail and prints the
    keys sorted, so that branch is absent. *)
Definition main (fuel : nat) (f : Flags) : option (Z * State) :=
  let st := initState in
  match time_ParseDuration E (thresholdStr f) with
  | None =>
      Some (1, Println st (UnableToParseThreshold (ParseError (thresholdStr f))))
  | Some threshold =>
      if negb (url_Parse E loginURL) then
        Some (1, Println st (UnableToCreateAuthenticationRequest (URLError loginURL)))
      else
        match client_Do (loginRequest f) st with
        | (inl err, _, st1) => Some (1, Println st1 (UnableToAuthenticate err))
        | (inr rsp, n, st1) =>
            match Body rsp with
            | inl err =>
                Some (1, Println st1 (UnableToReadAuthenticationResponse err))
            | inr body =>
                let st2 := Close st1 n in
                match json_Unmarshal_Auth body with
                | inl err =>
                    Some (1, Println st2 (UnableToUnmarshalAuthenticationResponse err))
                | inr authenticationResponse =>
                    match List fuel (Token authenticationResponse) (tagsURL f) [] st2 with
                    | None => None
                    | Some (_, Some err, st3) =>
                        Some (0, Println st3 (UnableToListTags err))
                    | Some (tags, None, st3) =>
                        match reap f (Token authenticationResponse) threshold tags st3 with
                        | (Some code, st4) => Some (code, st4)
                        | (None, st4) => Some (0, st4)
                        end
                    end
                end
            end
        end
  end.

(** *** Observations on a log *)

Definition requests (l : list event) : list Request :=
  flat_map (fun e => match e with EvDo _ r => [r] | _ => [] end) l.

Definition printed (l : list event) : list line :=
  flat_map (fun e => match e with EvPrint p => [p] | _ => [] end) l.

Definition isDelete (r : Request) : bool :=
  match req_method r with MethodDelete => true | _ => false end.

Definition closed (n : nat) (l : list event) : bool :=
  existsb (fun e => match e with EvClose m => Nat.eqb m n | _ => false end) l.

(** Requests of the log that were answered with a response whose body was
    never closed. *)
Definition leaked (l : list event) : list nat :=
  flat_map (fun e =>
    match e with
    | EvDo n r =>
        match roundTrip E n r with
        | inr _ => if closed n l then [] else [n]
        | inl _ => []
        end
    | _ => []
    end) l.

End Run.

(** * Specification vocabulary *)

(** ** Page chains and failing walks *)

Section Chains.

Variable E : Env.

(** The server holds [pages] as a cursor chain entered at [url]: the
    request for [url], sent as request number [n], is answered with a body
    that decodes to the first page, that page's [next] is the URL of the
    second, and so on; the [next] of the last page is empty. *)
Fixpoint servesChain (token : string) (n : nat) (url : string)
    (pages : list Page) : Prop :=
  match pages with
  | [] => url = ""
  | p :: rest =>
      url <> "" /\ url_Parse E url = true /\
      (exists rsp body,
          roundTrip E n (getRequest token url) = inr rsp /\
          Body rsp = inr body /\
          json_Unmarshal_Page E body = inr p) /\
      servesChain token (S n) (Next p) rest
  end.

(** The URLs of the pages of a chain, in order. *)
Fixpoint chainURLs (url : string) (pages : list Page) : list string :=
  match pages with
  | [] => []
  | p :: rest => url :: chainURLs (Next p) rest
  end.

(** What walking the chain adds to the log: per page one request and the
    close of its body. *)
Fixpoint chainEvents (token : string) (n : nat) (url : string)
    (pages : list Page) : list event :=
  match pages with
  | [] => []
  | p :: rest =>
      EvDo n (getRequest token url) :: EvClose n
        :: chainEvents token (S n) (Next p) rest
  end.

(** The server keeps answering: whatever non-empty URL is asked for, at
    whatever moment, a page comes back whose [next] is [url] again. *)
Definition servesCycle (token url : string) : Prop :=
  url <> "" /\ url_Parse E url = true /\
  forall n, exists rsp body p,
      roundTrip E n (getRequest token url) = inr rsp /\
      Body rsp = inr body /\
      json_Unmarshal_Page E body = inr p /\ Next p = url.

(** The first pages of a chain: after [pages] the cursor stands at
    [url']. *)
Fixpoint servesUpTo (token : string) (n : nat) (url : string)
    (pages : list Page) (url' : string) : Prop :=
  match pages with
  | [] => url' = url
  | p :: rest =>
      url <> "" /\ url_Parse E url = true /\
      (exists rsp body,
          roundTrip E n (getRequest token url) = inr rsp /\
          Body rsp = inr body /\
          json_Unmarshal_Page E body = inr p) /\
      servesUpTo token (S n) (Next p) rest url'
  end.

(** Fetching the page at [url] as request [n] fails with [err], having
    added [evs] to the log: the request cannot be built, the transport
    fails, the body cannot be read, or the body is not a page. *)
Inductive fetchFails (token : string) (n : nat) (url : string)
    : error -> list event -> Prop :=
| FailsRequest :
    url_Parse E url = false ->
    fetchFails token n url (URLError url) []
| FailsTransport (err : error) :
    url_Parse E url = true ->
    roundTrip E n (getRequest token url) = inl err ->
    fetchFails token n url err [EvDo n (getRequest token url)]
| FailsRead (rsp : Response) (err : error) :
    url_Parse E url = true ->
    roundTrip E n (getRequest token url) = inr rsp ->
    Body rsp = inl err ->
    fetchFails token n url err [EvDo n (getRequest token url)]
| FailsDecode (rsp : Response) (body : Bytes) (err : error) :
    url_Parse E url = true ->
    roundTrip E n (getRequest token url) = inr rsp ->
    Body rsp = inr body ->
    json_Unmarshal_Page E body = inl err ->
    fetchFails token n url err [EvDo n (getRequest token url); EvClose n].

(** What a finished loop has done: on [break], it walked a whole chain;
    on an error, it walked the first pages of one and failed on the fetch
    that followed, adding nothing after the failure. *)
Definition walked (token url : string) (acc : list value) (st : State)
    (r : error + list value) (st' : State) : Prop :=
  match r with
  | inr rs =>
      exists pages,
        servesChain token (nDo st) url pages /\
        rs = acc ++ List.concat (map Results pages) /\
        log st' = log st ++ chainEvents token (nDo st) url pages
  | inl err =>
      exists pages url' evs,
        servesUpTo token (nDo st) url pages url' /\ url' <> "" /\
        fetchFails token (nDo st + List.length pages) url' err evs /\
        log st' = log st ++ chainEvents token (nDo st) url pages ++ evs
  end.

End Chains.

(** ** Selection and outcomes of the reap loop *)

Section Reaping.

Variable E : Env.
Variable f : Flags.
Variable token : string.
Variable threshold : Duration.

(** The age of a tag as the loop computes it from clock reading [n]. *)
Definition ageAt (n : nat) (tag : Tag) : Duration :=
  time_Sub (clock E n) (Time_Time (LastUpdated tag)).

(** The tags the loop selects when it runs over all of [tags], the first
    test using clock reading [n]: a selected tag costs two readings (the
    test and the printed age), any other tag one. *)
Fixpoint selected (n : nat) (tags : TagList) : TagList :=
  match tags with
  | [] => []
  | tag :: rest =>
      if threshold <? ageAt n tag then tag :: selected (n + 2) rest
      else selected (n + 1) rest
  end.

Definition deleteOf (tag : Tag) : Request := deleteRequest f token (Name tag).

(** A selected tag: the state when the delete request is about to be
    built. *)
Definition announced (tag : Tag) (st : State) : State :=
  mkState (nDo st) (S (S (nNow st)))
    (log st ++ [EvNow (nNow st)] ++ [EvNow (S (nNow st))]
       ++ [EvPrint (DeletingTag (Name tag) (ageAt (S (nNow st)) tag))]).

(** The delete attempt for [tag], made in state [st], cannot be completed:
    the request cannot be built or the transport fails. *)
Definition deleteFails (tag : Tag) (st : State) : Prop :=
  url_Parse E (deleteURL f (Name tag)) = false \/
  exists err, roundTrip E (nDo st) (deleteOf tag) = inl err.

(** The diagnostic of a failed delete attempt. *)
Definition isFatalLine (l : line) : Prop :=
  match l with
  | UnableToCreateDeleteRequest _ | UnableToPerformDeleteRequest _ => True
  | _ => False
  end.

(** What is printed for a completed delete attempt: nothing more for a
    204, the status code for anything else. *)
Definition statusLines (rsp : Response) : list line :=
  if StatusCode rsp =? StatusNoContent then []
  else [UnexpectedStatusCode (StatusCode rsp)].

(** The lines the loop prints when every delete attempt is answered,
    starting with request number [d] and clock reading [n]. *)
Fixpoint reapLines (d n : nat) (tags : TagList) : list line :=
  match tags with
  | [] => []
  | tag :: rest =>
      if threshold <? ageAt n tag then
        DeletingTag (Name tag) (ageAt (S n) tag)
          :: match roundTrip E d (deleteOf tag) with
             | inr rsp => statusLines rsp
             | inl _ => []
             end ++ reapLines (S d) (S (S n)) rest
      else reapLines d (S n) rest
  end.

(** Every delete attempt over [tags] is completed by a response. *)
Definition allAnswered (tags : TagList) : Prop :=
  Forall (fun tag =>
            url_Parse E (deleteURL f (Name tag)) = true /\
            forall n, exists rsp, roundTrip E n (deleteOf tag) = inr rsp)
         tags.

End Reaping.

(** ** Records and the tags they describe *)

(** The values a record holds for a field of the target struct: those under
    the keys that name the field, in key order. *)
Definition fieldValues (field : string) (r : value) : list value :=
  match r with
  | VMap entries =>
      map snd (filter (fun kv => fieldMatch (fst kv) field) entries)
  | _ => []
  end.

(** The last string among [vs], [default] when there is none. *)
Fixpoint lastString (vs : list value) (default : string) : string :=
  match vs with
  | [] => default
  | VString s :: rest => lastString rest s
  | _ :: rest => lastString rest default
  end.

(** The text [Time.UnmarshalJSON] parses for a value: a string's content,
    the empty string for [null]. *)
Definition stampOf (v : value) : string :=
  match v with
  | VString s => s
  | _ => ""
  end.

Definition isStamp (v : value) : bool :=
  match v with
  | VString _ | VNil => true
  | _ => false
  end.

Section Records.

Variable E : Env.

(** The instant of the last timestamp among [vs], [default] when there is
    none. *)
Fixpoint lastTime (vs : list value) (default : Time) : Time :=
  match vs with
  | [] => default
  | v :: rest =>
      lastTime rest
        match time_Parse E (stampOf v) with
        | Some t => mkTime t
        | None => default
        end
  end.

(** The tag a record describes when it is stored over [cur]: its name is
    the record's name, its time the instant of the record's timestamp;
    a field the record does not have keeps the value it has in [cur]. *)
Definition tagOfRecord (cur : Tag) (r : value) : Tag :=
  mkTag (lastString (fieldValues "name" r) (Name cur))
        (lastTime (fieldValues "last_updated" r) (LastUpdated cur)).

(** A record with exactly one name, a string, and exactly one timestamp, a
    string that parses: the shape of the registry's tag records. *)
Definition tagRecord (r : value) (tag : Tag) : Prop :=
  (exists entries, r = VMap entries /\ increasing (keys entries)) /\
  fieldValues "name" r = [VString (Name tag)] /\
  exists stamp,
    fieldValues "last_updated" r = [VString stamp] /\
    time_Parse E stamp = Some (Time_Time (LastUpdated tag)).

(** A record as accumulated from a decoded page: a map has its keys in
    increasing order. *)
Definition accumulated (r : value) : Prop :=
  match r with
  | VMap entries => increasing (keys entries)
  | _ => True
  end.

Definition marshalEntry (kv : string * value) : string * jtext :=
  (fst kv, marshal (snd kv)).

Definition namesOf (entries : list (string * value)) : list value :=
  map snd (filter (fun kv => fieldMatch (fst kv) "name") entries).

Definition stampsOf (entries : list (string * value)) : list value :=
  map snd (filter (fun kv => fieldMatch (fst kv) "last_updated") entries).

(** The tags a record sequence describes when stored over the slice
    [cur]. *)
Fixpoint tagsOfRecords (cur : TagList) (rs : list value) : TagList :=
  match rs with
  | [] => []
  | r :: rest => tagOfRecord (hd zeroTag cur) r :: tagsOfRecords (tl cur) rest
  end.

End Records.

(** ** Records the typed decoder accepts *)

Section Clean.

Variable E : Env.

(** A value [Time.UnmarshalJSON] accepts: a string, or [null] read as the
    empty string, that [time.Parse] accepts. *)
Definition stampParses (v : value) : bool :=
  isStamp v &&
  match time_Parse E (stampOf v) with
  | Some _ => true
  | None => false
  end.

(** The entries of a record fit a [Tag]: every value under a key that
    names [name] is a string or [null], and every value under a key that
    names [last_updated] is accepted by [Time.UnmarshalJSON]. *)
Definition cleanEntries (entries : list (string * value)) : bool :=
  forallb isStamp (namesOf entries) && forallb stampParses (stampsOf entries).

(** A record fits a [Tag]: it is [null] or an object whose entries do. *)
Definition cleanRecord (r : value) : bool :=
  match r with
  | VNil => true
  | VMap entries => cleanEntries entries
  | _ => false
  end.

(** A record holds no timestamp that [Time.UnmarshalJSON] rejects. *)
Definition timedRecord (r : value) : bool :=
  match r with
  | VMap entries => forallb stampParses (stampsOf entries)
  | _ => true
  end.

(** A decoder reported an error, saved or fatal. *)
Definition failed {A : Type} (d : decoded A) : Prop :=
  match d with
  | Done _ None => False
  | _ => True
  end.

End Clean.

(** ** The process around the two loops *)

Section Process.

Variable E : Env.
Variable f : Flags.

(** The state once the login response has been read and closed. *)
Definition loggedIn : State :=
  mkState 1 0 [EvDo 0 (loginRequest f); EvClose 0].

(** The threshold parses and the login yields [token]. *)
Definition authenticated (threshold : Duration) (token : string) : Prop :=
  time_ParseDuration E (thresholdStr f) = Some threshold /\
  url_Parse E loginURL = true /\
  exists rsp body,
    roundTrip E 0 (loginRequest f) = inr rsp /\
    Body rsp = inr body /\
    json_Unmarshal_Auth body = inr (mkAuth token).

End Process.

(** ** A concrete registry *)

Module Sample.

Fixpoint assoc {A : Type} (k : string) (l : list (string * A)) : option A :=
  match l with
  | [] => None
  | (k', v) :: rest => if String.eqb k k' then Some v else assoc k rest
  end.

(** The timestamps, durations and integers that occur below, with the
    values Go's parsers give them. *)
Definition parseTime (s : string) : option time_Time :=
  assoc s [("2020-01-01T00:00:00Z", 1577836800000000000);
           ("2020-01-02T00:00:00Z", 1577923200000000000);
           ("2020-01-01T23:59:59.999999999Z", 1577923199999999999);
           ("2020-01-02T23:00:00Z", 1578006000000000000)].

Definition parseDuration (s : string) : option Duration :=
  assoc s [("24h", 86400000000000); ("720h", 2592000000000000)].

Definition parseInt (s : string) : option Z :=
  assoc s [("0", 0); ("1", 1); ("2", 2); ("3", 3)].

(** 2020-01-03T00:00:00Z *)
Definition now : time_Time := 1578009600000000000.

Definition flags : Flags := mkFlags "u" "secret" "i" "24h".

Definition record (name stamp : string) : jtext :=
  JObject [("name", JString name); ("last_updated", JString stamp);
           ("full_size", JNumber "1")].

Definition pageBody (next : jtext) (records : list jtext) : Bytes :=
  Text (JObject [("count", JNumber "2"); ("next", next);
                 ("previous", JNull); ("results", JArray records)]).

Definition ok (body : Bytes) : error + Response := inr (mkResponse 200 (inr body)).

Definition loginAnswer : error + Response :=
  ok (Text (JObject [("token", JString "tok")])).

Definition page2URL : string :=
  "https://hub.docker.com/v2/repositories/u/i/tags?page=2".

(** A registry with two pages of one tag each; [first] and [second] are
    the answers to the two page requests and [delete] answers a delete
    request from its sequence number and tag URL. *)
Definition registry (first second : error + Response)
    (delete : nat -> string -> error + Response)
    (n : nat) (r : Request) : error + Response :=
  match req_method r with
  | MethodPost => loginAnswer
  | MethodGet =>
      if String.eqb (req_url r) (tagsURL flags) then first
      else if String.eqb (req_url r) page2URL then second
      else inl (NetError 404)
  | MethodDelete => delete n (req_url r)
  end.

Definition env (validURL : string -> bool)
    (rt : nat -> Request -> error + Response) : Env :=
  mkEnv parseTime parseDuration (fun lit => Some lit) parseInt validURL rt
    (fun _ => now).

Definition page1 : error + Response :=
  ok (pageBody (JString page2URL) [record "v1" "2020-01-01T00:00:00Z"]).

Definition page2 : error + Response :=
  ok (pageBody JNull [record "v2" "2020-01-02T23:00:00Z"]).

Definition noContent (n : nat) (url : string) : error + Response :=
  inr (mkResponse 204 (inr Garbage)).

(** The scenario of a 24h threshold with one tag 48h old and one 1h old. *)
Definition healthy : Env := env (fun _ => true) (registry page1 page2 noContent).

(** The two pages as decoded, and the tags their records describe. *)
Definition recordValue (name stamp : string) : value :=
  VMap [("full_size", VFloat "1"); ("last_updated", VString stamp);
        ("name", VString name)].

Definition decoded1 : Page :=
  mkPage 2 page2URL "" [recordValue "v1" "2020-01-01T00:00:00Z"].

Definition decoded2 : Page :=
  mkPage 2 "" "" [recordValue "v2" "2020-01-02T23:00:00Z"].

Definition tagV1 : Tag := mkTag "v1" (mkTime 1577836800000000000).
Definition tagV2 : Tag := mkTag "v2" (mkTime 1578006000000000000).

(** Both tags 48h old. *)
Definition page2old : error + Response :=
  ok (pageBody JNull [record "v2" "2020-01-01T00:00:00Z"]).

Definition tagV2old : Tag := mkTag "v2" (mkTime 1577836800000000000).

Definition forbidden (n : nat) (url : string) : error + Response :=
  inr (mkResponse 403 (inr Garbage)).

Definition unreachable (n : nat) (url : string) : error + Response :=
  inl (NetError 111).

(** Two old tags, every delete answered with 403. *)
Definition refusing : Env := env (fun _ => true) (registry page1 page2old forbidden).

(** Two old tags, the transport failing on every delete. *)
Definition offline : Env := env (fun _ => true) (registry page1 page2old unreachable).

(** The body of the first page cannot be read. *)
Definition unreadable : Env :=
  env (fun _ => true)
    (registry (inr (mkResponse 200 (inl (NetError 1)))) page2 noContent).

(** A single page whose second record carries a timestamp that is not in
    the RFC 3339 layout. *)
Definition staleStamp : Env :=
  env (fun _ => true)
    (registry (ok (pageBody JNull [record "v1" "2020-01-01T00:00:00Z";
                                   record "v2" "yesterday"]))
       page2 noContent).

(** A tag exactly 24h old and one a nanosecond older. *)
Definition tagExact : Tag := mkTag "exact" (mkTime 1577923200000000000).
Definition tagOlder : Tag := mkTag "older" (mkTime 1577923199999999999).

End Sample.

(** ** Further vocabulary: start-up, request shapes, open bodies *)

(** No member of a JSON object names [field]. *)
Definition noField (field : string) (members : list (string * jtext)) : bool :=
  forallb (fun kv => negb (fieldMatch (fst kv) field)) members.

(** Keys written in ASCII only; on such keys the fold of [fieldMatch] is
    the fold of letter case. *)
Definition isASCII (s : string) : bool :=
  forallb (fun c => (nat_of_ascii c <? 128)%nat) (list_ascii_of_string s).

Definition asciiKeys {A : Type} (members : list (string * A)) : bool :=
  forallb (fun kv => isASCII (fst kv)) members.

Definition asciiRecord (r : value) : bool :=
  match r with
  | VMap entries => asciiKeys entries
  | _ => true
  end.

(** The object carries none of the fields of a [Page]. *)
Definition pageless (members : list (string * jtext)) : bool :=
  noField "count" members && noField "next" members
  && noField "previous" members && noField "results" members.

(** The request presents [token] as [Authorization: JWT token]. *)
Definition carriesToken (token : string) (r : Request) : Prop :=
  In ("Authorization", ("JWT " ++ token)%string) (req_header r).


Section StartUp.

Variable E : Env.
Variable f : Flags.

(** The process fails before it lists anything: the printed diagnostic and
    the events that precede it.  The threshold does not parse, or the login
    request cannot be built, is not answered, has an unreadable body, or is
    answered with something that does not decode. *)
Inductive startupFails : line -> list event -> Prop :=
| BadThreshold :
    time_ParseDuration E (thresholdStr f) = None ->
    startupFails (UnableToParseThreshold (ParseError (thresholdStr f))) []
| BadLoginRequest (threshold : Duration) :
    time_ParseDuration E (thresholdStr f) = Some threshold ->
    url_Parse E loginURL = false ->
    startupFails (UnableToCreateAuthenticationRequest (URLError loginURL)) []
| LoginUnanswered (threshold : Duration) (err : error) :
    time_ParseDuration E (thresholdStr f) = Some threshold ->
    url_Parse E loginURL = true ->
    roundTrip E 0 (loginRequest f) = inl err ->
    startupFails (UnableToAuthenticate err) [EvDo 0 (loginRequest f)]
| LoginUnread (threshold : Duration) (rsp : Response) (err : error) :
    time_ParseDuration E (thresholdStr f) = Some threshold ->
    url_Parse E loginURL = true ->
    roundTrip E 0 (loginRequest f) = inr rsp ->
    Body rsp = inl err ->
    startupFails (UnableToReadAuthenticationResponse err)
      [EvDo 0 (loginRequest f)]
| LoginUndecoded (threshold : Duration) (rsp : Response) (body : Bytes)
    (err : error) :
    time_ParseDuration E (thresholdStr f) = Some threshold ->
    url_Parse E loginURL = true ->
    roundTrip E 0 (loginRequest f) = inr rsp ->
    Body rsp = inr body ->
    json_Unmarshal_Auth body = inl err ->
    startupFails (UnableToUnmarshalAuthenticationResponse err)
      [EvDo 0 (loginRequest f); EvClose 0].

(** The body of an answered request of [evs] cannot be read. *)
Definition unreadBody (n : nat) : Prop :=
  exists r rsp err, roundTrip E n r = inr rsp /\ Body rsp = inl err.

(** Every answered request of [evs] has its body closed within [evs],
    unless the request satisfies [Q]. *)
Definition closesBodies (Q : nat -> Prop) (evs : list event) : Prop :=
  forall n r rsp,
    In (EvDo n r) evs -> roundTrip E n r = inr rsp ->
    closed n evs = true \/ Q n.


End StartUp.

(** The diagnostics that precede an exit with code 1. *)
Definition fatalDiagnostic (l : line) : bool :=
  match l with
  | UnableToParseThreshold _
  | UnableToCreateAuthenticationRequest _
  | UnableToAuthenticate _
  | UnableToReadAuthenticationResponse _
  | UnableToUnmarshalAuthenticationResponse _
  | UnableToCreateDeleteRequest _
  | UnableToPerformDeleteRequest _ => true
  | UnableToListTags _ | DeletingTag _ _ | UnexpectedStatusCode _ => false
  end.

(** The lines printed by a run that exits with [code]: with 1 the last
    line, and only the last, is a fatal diagnostic; with any other code no
    line is. *)
Definition explainsExit (code : Z) (lines : list line) : Prop :=
  (code = 1 /\
   exists before l,
     lines = before ++ [l] /\ fatalDiagnostic l = true /\
     forallb (fun l => negb (fatalDiagnostic l)) before = true) \/
  (code = 0 /\ forallb (fun l => negb (fatalDiagnostic l)) lines = true).

(** ** Further registries *)

Module Cases.

(** The login is refused with a 401 and an explanation, no token. *)
Definition denied (n : nat) (r : Request) : error + Response :=
  match req_method r with
  | MethodPost =>
      inr (mkResponse 401
             (inr (Text (JObject [("detail", JString "Incorrect authentication credentials")]))))
  | _ => inl (NetError 401)
  end.

Definition deniedEnv : Env := Sample.env (fun _ => true) denied.

(** The login cannot be reached. *)
Definition downEnv : Env :=
  Sample.env (fun _ => true) (fun _ _ => inl (NetError 111)).

(** The repository does not exist: the tag list is answered with a 404
    and an explanation. *)
Definition notFound : error + Response :=
  inr (mkResponse 404
         (inr (Text (JObject [("detail", JString "Object not found")])))).

Definition notFoundEnv : Env :=
  Sample.env (fun _ => true)
    (Sample.registry notFound Sample.page2 Sample.noContent).

(** The long s (U+017F) and the Kelvin sign (U+212A) in UTF-8. *)
Definition longS : string :=
  String (ascii_of_nat 197) (String (ascii_of_nat 191) "").

Definition kelvin : string :=
  String (ascii_of_nat 226) (String (ascii_of_nat 132)
    (String (ascii_of_nat 170) "")).

(** A record with a good timestamp under [last_updated] and a bad one
    under the same key spelt with a long s. *)
Definition twiceStamped : value :=
  VMap [("last_updated", VString "2020-01-01T00:00:00Z");
        (("la" ++ longS ++ "t_updated")%string, VString "garbage");
        ("name", VString "v1")].

(** A registry that spells the keys of its one record in capitals. *)
Definition capitals : Env :=
  Sample.env (fun _ => true)
    (Sample.registry
       (Sample.ok
          (Sample.pageBody JNull
             [JObject [("NAME", JString "v1");
                       ("Last_Updated", JString "2020-01-01T00:00:00Z")]]))
       Sample.page2 Sample.noContent).

Definition capitalRecord : value :=
  VMap [("Last_Updated", VString "2020-01-01T00:00:00Z");
        ("NAME", VString "v1")].

(** A record without a timestamp. *)
Definition bareRecord : value := VMap [("name", VString "v3")].

(** A tag updated an hour after [Sample.now]. *)
Definition tagAhead : Tag := mkTag "ahead" (mkTime 1578013200000000000).

End Cases.

(** * Proofs *)

(** ** Logs *)

Lemma eqb_empty_false (url : string) : url <> "" -> String.eqb url "" = false.
Proof.
  intros H. destruct (String.eqb url "") eqn:Heq; [|reflexivity].
  apply String.eqb_eq in Heq. contradiction.
Qed.

Lemma requests_app (l1 l2 : list event) :
  requests (l1 ++ l2) = requests l1 ++ requests l2.
Proof. unfold requests. apply flat_map_app. Qed.

Lemma printed_app (l1 l2 : list event) :
  printed (l1 ++ l2) = printed l1 ++ printed l2.
Proof. unfold printed. apply flat_map_app. Qed.

(** Normalises the requests of a log built by appending events. *)
Ltac log_requests :=
  repeat rewrite requests_app; simpl;
  repeat rewrite app_nil_r; repeat rewrite <- app_assoc; simpl.

(** The same for the requests and the printed lines together. *)
Ltac log_simpl :=
  repeat rewrite printed_app; repeat rewrite requests_app; simpl;
  repeat rewrite app_nil_r; repeat rewrite <- app_assoc; simpl.

Example main_healthy :
  option_map (fun r => (fst r, requests (log (snd r)), printed (log (snd r))))
    (main Sample.healthy 2 Sample.flags)
  = Some (0,
          [loginRequest Sample.flags;
           getRequest "tok" (tagsURL Sample.flags);
           getRequest "tok" Sample.page2URL;
           deleteRequest Sample.flags "tok" "v1"],
          [DeletingTag "v1" 172800000000000]).
Proof. vm_compute. reflexivity. Qed.

(** ** Maps as sorted association lists *)

Section SortedMaps.

Context {A : Type}.

Lemma compare_trans (a b c : string) :
  String.compare a b = Lt -> String.compare b c = Lt -> String.compare a c = Lt.
Proof.
  intros Hab Hbc. apply String_as_OT.cmp_lt.
  apply String_as_OT.lt_trans with b; apply String_as_OT.cmp_lt; assumption.
Qed.

Lemma compare_gt_lt (a b : string) :
  String.compare a b = Gt -> String.compare b a = Lt.
Proof.
  intros H. rewrite String.compare_antisym, H. reflexivity.
Qed.

Lemma keys_map_insert_above (k k0 : string) (v : A) (m : list (string * A)) :
  String.compare k0 k = Lt ->
  Forall (fun k' => String.compare k0 k' = Lt) (keys m) ->
  Forall (fun k' => String.compare k0 k' = Lt) (keys (map_insert k v m)).
Proof.
  intros Hk. induction m as [|[k' v'] rest IH]; intros Hm; simpl.
  - constructor; [exact Hk|constructor].
  - inversion Hm as [|? ? Hk' Hrest]; subst.
    destruct (String.compare k k'); simpl.
    + constructor; assumption.
    + constructor; [exact Hk|]. constructor; assumption.
    + constructor; [exact Hk'|]. apply IH. exact Hrest.
Qed.

Lemma map_insert_increasing (k : string) (v : A) (m : list (string * A)) :
  increasing (keys m) -> increasing (keys (map_insert k v m)).
Proof.
  induction m as [|[k' v'] rest IH]; intros Hm; simpl.
  - split; [constructor|exact I].
  - simpl in Hm. destruct Hm as [Habove Hrest].
    destruct (String.compare k k') eqn:Hc; simpl.
    + apply String.compare_eq_iff in Hc. subst k'. split; assumption.
    + split; [|split; assumption].
      constructor; [exact Hc|].
      eapply Forall_impl; [|exact Habove].
      intros k'' H. simpl in H. eapply compare_trans; eassumption.
    + split; [|apply IH; exact Hrest].
      apply keys_map_insert_above; [apply compare_gt_lt; exact Hc|exact Habove].
Qed.

Lemma fold_insert_increasing (ms acc : list (string * A)) :
  increasing (keys acc) ->
  increasing
    (keys (fold_left (fun acc kv => map_insert (fst kv) (snd kv) acc) ms acc)).
Proof.
  revert acc. induction ms as [|[k v] ms IH]; intros acc Hacc; simpl.
  - exact Hacc.
  - apply IH. apply map_insert_increasing. exact Hacc.
Qed.

Lemma map_of_members_increasing (ms : list (string * A)) :
  increasing (keys (map_of_members ms)).
Proof. apply fold_insert_increasing. exact I. Qed.

Lemma increasing_app_inv (l1 l2 : list string) :
  increasing (l1 ++ l2) ->
  increasing l1 /\ increasing l2 /\
  forall a b, In a l1 -> In b l2 -> String.compare a b = Lt.
Proof.
  induction l1 as [|k l1 IH]; simpl.
  - intros H. repeat split; [exact H|]. intros a b [].
  - intros [Habove Hrest]. destruct (IH Hrest) as (H1 & H2 & H12).
    apply Forall_app in Habove. destruct Habove as [Ha1 Ha2].
    repeat split; try assumption.
    intros a b [->|Ha] Hb.
    + rewrite Forall_forall in Ha2. apply Ha2. exact Hb.
    + apply H12; assumption.
Qed.

(** A key above all the keys of a map is inserted at its end. *)
Lemma map_insert_last (k : string) (v : A) (m : list (string * A)) :
  (forall a, In a (keys m) -> String.compare a k = Lt) ->
  map_insert k v m = m ++ [(k, v)].
Proof.
  induction m as [|[k' v'] rest IH]; intros Hm; simpl.
  - reflexivity.
  - assert (Hk : String.compare k' k = Lt) by (apply Hm; simpl; auto).
    rewrite String.compare_antisym, Hk. simpl. f_equal.
    apply IH. intros a Ha. apply Hm. simpl. auto.
Qed.

Lemma fold_insert_sorted (ms acc : list (string * A)) :
  increasing (keys (acc ++ ms)) ->
  fold_left (fun acc kv => map_insert (fst kv) (snd kv) acc) ms acc = acc ++ ms.
Proof.
  revert acc. induction ms as [|[k v] ms IH]; intros acc H; simpl.
  - rewrite app_nil_r. reflexivity.
  - assert (Hacc : map_insert k v acc = acc ++ [(k, v)]).
    { apply map_insert_last. intros a Ha. unfold keys in H.
      rewrite map_app in H. apply increasing_app_inv in H.
      destruct H as (_ & _ & H). apply H; [exact Ha|simpl; auto]. }
    rewrite Hacc. rewrite IH; rewrite <- app_assoc; [reflexivity|exact H].
Qed.

(** Re-assigning the entries of a map in key order rebuilds it. *)
Lemma map_of_members_sorted (m : list (string * A)) :
  increasing (keys m) -> map_of_members m = m.
Proof. intros H. apply (fold_insert_sorted m []). exact H. Qed.

End SortedMaps.

(** ** The pagination loop *)

Section ListFacts.

Variable E : Env.

Lemma requests_chainEvents (token : string) (pages : list Page) :
  forall n url,
    requests (chainEvents token n url pages)
    = map (getRequest token) (chainURLs url pages).
Proof.
  induction pages as [|p rest IH]; intros n url; simpl; [reflexivity|].
  f_equal. apply IH.
Qed.

Lemma printed_chainEvents (token : string) (pages : list Page) :
  forall n url, printed (chainEvents token n url pages) = [].
Proof.
  induction pages as [|p rest IH]; intros n url; simpl; [reflexivity|].
  apply IH.
Qed.

(** Walking a chain of pages: the loop breaks after one request per page
    with every page's results appended in order. *)
Lemma List_loop_chain (token : string) (pages : list Page) :
  forall fuel url acc st,
    servesChain E token (nDo st) url pages ->
    (List.length pages <= fuel)%nat ->
    List_loop E fuel token url acc st
    = Some (inr (acc ++ List.concat (map Results pages)),
            mkState (nDo st + List.length pages) (nNow st)
              (log st ++ chainEvents token (nDo st) url pages)).
Proof.
  induction pages as [|p rest IH]; intros fuel url acc st Hc Hf.
  - simpl in Hc. subst url. destruct st as [d c l].
    destruct fuel; simpl; rewrite !app_nil_r, Nat.add_0_r; reflexivity.
  - simpl in Hc. destruct Hc as (Hne & Hurl & (rsp & body & Hrt & Hb & Hp) & Hrest).
    destruct fuel as [|fuel]; [simpl in Hf; lia|].
    simpl. rewrite (eqb_empty_false _ Hne), Hurl. simpl.
    rewrite Hrt, Hb, Hp.
    rewrite IH; [| exact Hrest | simpl in Hf; lia].
    simpl. rewrite <- !app_assoc. simpl.
    repeat f_equal. lia.
Qed.

(** A page that points at itself keeps the loop running whatever the
    fuel. *)
Lemma List_loop_cycle (token url : string) :
  servesCycle E token url ->
  forall fuel acc st, List_loop E fuel token url acc st = None.
Proof.
  intros (Hne & Hurl & Hsrv). induction fuel as [|fuel IH]; intros acc st.
  - simpl. rewrite (eqb_empty_false _ Hne). reflexivity.
  - simpl. rewrite (eqb_empty_false _ Hne), Hurl. simpl.
    destruct (Hsrv (nDo st)) as (rsp & body & p & Hrt & Hb & Hp & Hn).
    rewrite Hrt, Hb, Hp, Hn. apply IH.
Qed.

End ListFacts.

Section Failures.

Variable E : Env.

Lemma List_loop_walked (fuel : nat) :
  forall token url acc st r st',
    List_loop E fuel token url acc st = Some (r, st') ->
    walked E token url acc st r st'.
Proof.
  assert (Hbreak : forall token acc st,
             walked E token "" acc st (inr acc) st).
  { intros token acc st. exists []. simpl.
    rewrite !app_nil_r. repeat split. }
  assert (Hurl : forall url, String.eqb url "" = true -> url = "")
    by (intros url H; apply String.eqb_eq; exact H).
  induction fuel as [|fuel IH]; intros token url acc st r st' H; simpl in H;
    destruct (String.eqb url "") eqn:Hu.
  - inversion H; subst. rewrite (Hurl _ Hu). apply Hbreak.
  - discriminate.
  - inversion H; subst. rewrite (Hurl _ Hu). apply Hbreak.
  - apply String.eqb_neq in Hu.
    destruct (url_Parse E url) eqn:Hp; simpl in H.
    2:{ inversion H; subst. exists [], url, []. simpl.
        rewrite Nat.add_0_r, app_nil_r.
        repeat split; auto. constructor. exact Hp. }
    unfold client_Do in H.
    destruct (roundTrip E (nDo st) (getRequest token url)) as [err|rsp] eqn:Hrt.
    { inversion H; subst. exists [], url, [EvDo (nDo st) (getRequest token url)].
      simpl. rewrite Nat.add_0_r. repeat split; auto.
      apply FailsTransport; assumption. }
    destruct (Body rsp) as [err|body] eqn:Hb.
    { inversion H; subst. exists [], url, [EvDo (nDo st) (getRequest token url)].
      simpl. rewrite Nat.add_0_r. repeat split; auto.
      eapply FailsRead; eassumption. }
    destruct (json_Unmarshal_Page E body) as [err|page] eqn:Hpage.
    { inversion H; subst.
      exists [], url, [EvDo (nDo st) (getRequest token url); EvClose (nDo st)].
      simpl. rewrite Nat.add_0_r, <- app_assoc. repeat split; auto.
      eapply FailsDecode; eassumption. }
    apply IH in H. cbn [Close emit nDo nNow log] in H.
    assert (Hserved : exists rsp body,
               roundTrip E (nDo st) (getRequest token url) = inr rsp /\
               Body rsp = inr body /\ json_Unmarshal_Page E body = inr page)
      by (exists rsp, body; auto).
    destruct r as [err|rs]; simpl in H |- *.
    + destruct H as (pages & url' & evs & Hup & Hne & Hfail & Hlog).
      exists (page :: pages), url', evs. simpl.
      replace (nDo st + S (List.length pages))%nat
        with (S (nDo st) + List.length pages)%nat by lia.
      repeat split; auto.
      rewrite Hlog, <- !app_assoc. reflexivity.
    + destruct H as (pages & Hc & Hrs & Hlog).
      exists (page :: pages). simpl. repeat split; auto.
      * rewrite Hrs, <- app_assoc. reflexivity.
      * rewrite Hlog, <- !app_assoc. reflexivity.
Qed.

End Failures.

Section ListRequests.

Variable E : Env.

Lemma fetchFails_events (token : string) (n : nat) (url : string)
    (err : error) (evs : list event) :
  fetchFails E token n url err evs ->
  printed evs = [] /\
  (requests evs = [] \/ requests evs = [getRequest token url]).
Proof. destruct 1; simpl; auto. Qed.

(** [List] sends page requests only and prints nothing. *)
Lemma List_requests (fuel : nat) (token url : string) (results : TagList)
    (st : State) (out : TagList * option error) (st' : State) :
  List E fuel token url results st = Some (out, st') ->
  printed (log st') = printed (log st) /\
  exists urls,
    requests (log st') = requests (log st) ++ map (getRequest token) urls.
Proof.
  unfold List. destruct (List_loop E fuel token url [] st) as [[r st1]|] eqn:Hl;
    [|discriminate].
  apply List_loop_walked in Hl. intros H.
  assert (st1 = st').
  { destruct r as [err|rs].
    - inversion H; reflexivity.
    - unfold json_Marshal in H.
      destruct (json_Unmarshal_TagList E (Text (JArray (map marshal rs))) results).
      inversion H; reflexivity. }
  subst st1. clear H. destruct r as [err|rs]; simpl in Hl.
  - destruct Hl as (pages & url' & evs & _ & _ & Hfail & Hlog).
    destruct (fetchFails_events _ _ _ _ _ Hfail) as [Hp Hr].
    rewrite Hlog, !printed_app, !requests_app, printed_chainEvents, Hp,
      requests_chainEvents, !app_nil_r.
    split; [reflexivity|].
    destruct Hr as [-> | ->].
    + exists (chainURLs url pages). rewrite app_nil_r. reflexivity.
    + exists (chainURLs url pages ++ [url']). rewrite map_app. reflexivity.
  - destruct Hl as (pages & _ & _ & Hlog).
    rewrite Hlog, printed_app, requests_app, printed_chainEvents,
      requests_chainEvents, app_nil_r.
    split; [reflexivity|]. exists (chainURLs url pages). reflexivity.
Qed.

End ListRequests.

(** With fewer requests allowed than the chain has pages the loop is still
    running: it stops nowhere before the empty cursor. *)
Lemma List_loop_chain_short (E : Env) (token : string) (pages : list Page) :
  forall fuel url acc st,
    servesChain E token (nDo st) url pages ->
    (fuel < List.length pages)%nat ->
    List_loop E fuel token url acc st = None.
Proof.
  induction pages as [|p rest IH]; intros fuel url acc st Hc Hf.
  - simpl in Hf. lia.
  - simpl in Hc.
    destruct Hc as (Hne & Hurl & (rsp & body & Hrt & Hb & Hp) & Hrest).
    destruct fuel as [|fuel]; simpl; rewrite (eqb_empty_false _ Hne).
    + reflexivity.
    + rewrite Hurl. simpl. rewrite Hrt, Hb, Hp.
      apply IH; [exact Hrest|simpl in Hf; lia].
Qed.

(** ** The reap loop *)

Section ReapFacts.

Variable E : Env.
Variable f : Flags.
Variable token : string.
Variable threshold : Duration.

(** A tag that is not over the threshold costs one clock reading and
    nothing else. *)
Lemma reapTag_retained (tag : Tag) (st : State) :
  (threshold <? ageAt E (nNow st) tag) = false ->
  reapTag E f token threshold tag st
  = (None, mkState (nDo st) (S (nNow st)) (log st ++ [EvNow (nNow st)])).
Proof.
  intros H. unfold reapTag, time_Since. fold (ageAt E (nNow st) tag).
  rewrite H. reflexivity.
Qed.

Lemma reapTag_selected (tag : Tag) (st : State) :
  (threshold <? ageAt E (nNow st) tag) = true ->
  reapTag E f token threshold tag st
  = if negb (url_Parse E (deleteURL f (Name tag))) then
      (Some 1,
       Println (announced E tag st)
         (UnableToCreateDeleteRequest (URLError (deleteURL f (Name tag)))))
    else
      match client_Do E (deleteOf f token tag) (announced E tag st) with
      | (inl err, _, st4) =>
          (Some 1, Println st4 (UnableToPerformDeleteRequest err))
      | (inr rsp, n, st4) =>
          if StatusCode rsp =? StatusNoContent then (None, Close st4 n)
          else (None, Println (Close st4 n) (UnexpectedStatusCode (StatusCode rsp)))
      end.
Proof.
  intros H. unfold reapTag, time_Since. fold (ageAt E (nNow st) tag).
  rewrite H. cbn [nNow nDo log]. unfold announced, Println, emit.
  cbn [nNow nDo log]. rewrite <- !app_assoc. reflexivity.
Qed.

(** One iteration: the requests it adds are the tag's own delete request,
    and only when the tag is selected; the loop goes on exactly when no
    request construction or transport failure occurred. *)
Lemma reapTag_requests (tag : Tag) (st : State) :
  forall r st', reapTag E f token threshold tag st = (r, st') ->
    (nNow st' = nNow st + (if (threshold <? ageAt E (nNow st) tag)%Z then 2 else 1))%nat /\
    (r = None \/ r = Some 1) /\
    exists sent,
      requests (log st') = requests (log st) ++ sent /\
      (sent = [] \/ sent = [deleteOf f token tag]) /\
      ((threshold <? ageAt E (nNow st) tag) = false -> sent = [] /\ r = None) /\
      (r = None -> (threshold <? ageAt E (nNow st) tag) = true ->
       sent = [deleteOf f token tag]).
Proof.
  intros r st' Hr.
  destruct (threshold <? ageAt E (nNow st) tag) eqn:Hsel.
  - rewrite (reapTag_selected _ _ Hsel) in Hr.
    destruct (url_Parse E (deleteURL f (Name tag))); simpl in Hr.
    + unfold client_Do in Hr. cbn [nDo nNow log announced] in Hr.
      destruct (roundTrip E (nDo st) (deleteOf f token tag)) as [err|rsp].
      * inversion Hr; subst; clear Hr. cbn [nNow log Println emit].
        split; [lia|]. split; [now right|].
        exists [deleteOf f token tag]. split; [log_requests; reflexivity|].
        repeat split; auto; discriminate.
      * destruct (StatusCode rsp =? StatusNoContent);
          inversion Hr; subst; clear Hr; cbn [nNow log Println Close emit];
          (split; [lia|]); (split; [now left|]);
          exists [deleteOf f token tag]; (split; [log_requests; reflexivity|]);
          repeat split; auto; discriminate.
    + inversion Hr; subst; clear Hr. cbn [nNow log Println emit announced].
      split; [lia|]. split; [now right|].
      exists []. split; [log_requests; reflexivity|].
      repeat split; auto; discriminate.
  - rewrite (reapTag_retained _ _ Hsel) in Hr. inversion Hr; subst; clear Hr.
    cbn [nNow log]. split; [lia|]. split; [now left|].
    exists []. split; [log_requests; reflexivity|].
    repeat split; auto; discriminate.
Qed.

End ReapFacts.

Section ReapLoop.

Variable E : Env.
Variable f : Flags.
Variable token : string.
Variable threshold : Duration.

Lemma reap_app (pre post : TagList) (st : State) :
  reap E f token threshold (pre ++ post) st
  = match reap E f token threshold pre st with
    | (Some code, st') => (Some code, st')
    | (None, st') => reap E f token threshold post st'
    end.
Proof.
  revert st. induction pre as [|tag pre IH]; intros st; simpl.
  - reflexivity.
  - destruct (reapTag E f token threshold tag st) as [[code|] st1].
    + reflexivity.
    + apply IH.
Qed.

(** The delete requests the loop sends are, in order, those of the
    selected tags: all of them when the loop runs to its end, an initial
    part when the process exits inside the loop. *)
Lemma reap_requests (tags : TagList) :
  forall st r st', reap E f token threshold tags st = (r, st') ->
    (r = None \/ r = Some 1) /\
    (exists k,
        requests (log st')
        = requests (log st)
            ++ firstn k (map (deleteOf f token) (selected E threshold (nNow st) tags))) /\
    (r = None ->
     requests (log st')
     = requests (log st)
         ++ map (deleteOf f token) (selected E threshold (nNow st) tags)).
Proof.
  induction tags as [|tag rest IH]; intros st r st' Hr; simpl in Hr.
  - inversion Hr; subst. simpl. split; [now left|].
    split; [exists 0%nat|intros _]; rewrite app_nil_r; reflexivity.
  - destruct (reapTag E f token threshold tag st) as [r1 st1] eqn:H1.
    destruct (reapTag_requests E f token threshold tag st _ _ H1)
      as (Hnow & Hcode & sent & Hsent & Hshape & Hret & Hsel).
    simpl. destruct r1 as [code|].
    + inversion Hr; subst; clear Hr.
      destruct Hcode as [Hc|Hc]; [discriminate|]. split; [now right|].
      destruct (threshold <? ageAt E (nNow st) tag) eqn:Hage.
      * split; [|discriminate].
        destruct Hshape as [->| ->]; [exists 0%nat|exists 1%nat]; exact Hsent.
      * destruct (Hret eq_refl) as [_ Hbad]. discriminate.
    + destruct (IH _ _ _ Hr) as (Hc & (k & Hk) & Hall). split; [exact Hc|].
      rewrite Hnow in Hk, Hall.
      destruct (threshold <? ageAt E (nNow st) tag) eqn:Hage.
      * rewrite (Hsel eq_refl eq_refl) in Hsent.
        split; [exists (S k)|intros Hn; specialize (Hall Hn)].
        -- rewrite Hk, Hsent, <- app_assoc. reflexivity.
        -- rewrite Hall, Hsent, <- app_assoc. reflexivity.
      * destruct (Hret eq_refl) as [-> _]. rewrite app_nil_r in Hsent.
        split; [exists k|intros Hn; specialize (Hall Hn)].
        -- rewrite Hk, Hsent. reflexivity.
        -- rewrite Hall, Hsent. reflexivity.
Qed.

End ReapLoop.

Section ReapOutcomes.

Variable E : Env.
Variable f : Flags.
Variable token : string.
Variable threshold : Duration.

Lemma reapTag_fatal (tag : Tag) (st : State) :
  (threshold <? ageAt E (nNow st) tag) = true ->
  deleteFails E f token tag st ->
  exists st' diag,
    reapTag E f token threshold tag st = (Some 1, st') /\
    isFatalLine diag /\
    printed (log st')
    = printed (log st)
        ++ [DeletingTag (Name tag) (ageAt E (S (nNow st)) tag); diag] /\
    requests (log st')
    = requests (log st)
        ++ (if url_Parse E (deleteURL f (Name tag)) then [deleteOf f token tag]
            else []).
Proof.
  intros Hsel Hfail. rewrite (reapTag_selected _ _ _ _ _ _ Hsel).
  unfold deleteFails in Hfail.
  destruct (url_Parse E (deleteURL f (Name tag))) eqn:Hurl; simpl.
  - destruct Hfail as [Hbad|[err Herr]]; [discriminate|].
    unfold client_Do. cbn [nDo announced]. rewrite Herr.
    eexists. exists (UnableToPerformDeleteRequest err).
    split; [reflexivity|]. split; [exact I|].
    cbn [log Println emit announced].
    log_simpl. split; reflexivity.
  - eexists. exists (UnableToCreateDeleteRequest (URLError (deleteURL f (Name tag)))).
    split; [reflexivity|]. split; [exact I|].
    cbn [log Println emit announced].
    log_simpl. split; reflexivity.
Qed.

Lemma reapTag_answered (tag : Tag) (st : State) (rsp : Response) :
  (threshold <? ageAt E (nNow st) tag) = true ->
  url_Parse E (deleteURL f (Name tag)) = true ->
  roundTrip E (nDo st) (deleteOf f token tag) = inr rsp ->
  exists st',
    reapTag E f token threshold tag st = (None, st') /\
    nDo st' = S (nDo st) /\ nNow st' = S (S (nNow st)) /\
    printed (log st')
    = printed (log st)
        ++ DeletingTag (Name tag) (ageAt E (S (nNow st)) tag) :: statusLines rsp /\
    requests (log st') = requests (log st) ++ [deleteOf f token tag] /\
    closed (nDo st) (log st') = true.
Proof.
  intros Hsel Hurl Hrt. rewrite (reapTag_selected _ _ _ _ _ _ Hsel), Hurl.
  simpl. unfold client_Do. cbn [nDo nNow log announced]. rewrite Hrt.
  unfold statusLines.
  destruct (StatusCode rsp =? StatusNoContent); eexists;
    (split; [reflexivity|]); cbn [nDo nNow log Println Close emit];
    log_simpl; repeat split; unfold closed; rewrite !existsb_app; simpl;
    rewrite Nat.eqb_refl, ?orb_true_r; reflexivity.
Qed.

Lemma reap_answered (tags : TagList) :
  allAnswered E f token tags ->
  forall st, exists st',
    reap E f token threshold tags st = (None, st') /\
    printed (log st') = printed (log st) ++ reapLines E f token threshold (nDo st) (nNow st) tags.
Proof.
  induction 1 as [|tag rest [Hurl Hrt] Hrest IH]; intros st; simpl.
  - exists st. rewrite app_nil_r. split; reflexivity.
  - destruct (threshold <? ageAt E (nNow st) tag) eqn:Hsel.
    + destruct (Hrt (nDo st)) as [rsp Hrsp].
      destruct (reapTag_answered tag st rsp Hsel Hurl Hrsp)
        as (st1 & Hstep & Hd & Hn & Hp & _).
      rewrite Hstep. destruct (IH st1) as (st' & Hloop & Hp').
      exists st'. split; [exact Hloop|].
      rewrite Hp', Hp, Hd, Hn, Hrsp, <- app_assoc. reflexivity.
    + rewrite (reapTag_retained _ _ _ _ _ _ Hsel).
      destruct (IH (mkState (nDo st) (S (nNow st)) (log st ++ [EvNow (nNow st)])))
        as (st' & Hloop & Hp').
      exists st'. split; [exact Hloop|].
      rewrite Hp'. cbn [nDo nNow log]. rewrite printed_app. simpl.
      rewrite app_nil_r. reflexivity.
Qed.

End ReapOutcomes.

Lemma time_Sub_exact (t u : time_Time) :
  minDuration <= t - u <= maxDuration -> time_Sub t u = t - u.
Proof.
  intros [Hlo Hhi]. unfold time_Sub.
  destruct (t - u <? minDuration) eqn:H1; [apply Z.ltb_lt in H1; lia|].
  destruct (maxDuration <? t - u) eqn:H2; [apply Z.ltb_lt in H2; lia|].
  reflexivity.
Qed.

(** ** Typed decoding of accumulated records *)

Section RecordFacts.

Variable E : Env.

Lemma marshal_accumulated_map (entries : list (string * value)) :
  increasing (keys entries) ->
  marshal (VMap entries) = JObject (map marshalEntry entries).
Proof.
  intros H. simpl. f_equal. apply map_of_members_sorted.
  unfold keys. rewrite map_map. simpl. exact H.
Qed.

Lemma fieldMatch_name_stamp (k : string) :
  fieldMatch k "name" = true -> fieldMatch k "last_updated" = false.
Proof.
  unfold fieldMatch. intros H. apply String.eqb_eq in H. rewrite H.
  reflexivity.
Qed.

Lemma storeString_marshal (v : value) (cur : string) (saved : option error) :
  fst (storeString (marshal v) cur saved) = lastString [v] cur.
Proof. destruct v; reflexivity. Qed.

Lemma storeString_marshal_ok (v : value) (cur : string) (saved : option error) :
  isStamp v = true -> snd (storeString (marshal v) cur saved) = saved.
Proof. destruct v; simpl; intros H; try discriminate; reflexivity. Qed.

Lemma Time_UnmarshalJSON_marshal (v : value) (t t' : Time) :
  Time_UnmarshalJSON E t (Text (marshal v)) = (t', None) ->
  time_Parse E (stampOf v) = Some (Time_Time t').
Proof.
  unfold Time_UnmarshalJSON.
  destruct v; simpl; try discriminate;
    match goal with
    | |- context [time_Parse E ?s] => destruct (time_Parse E s) eqn:Hp
    end; intros H; inversion H; subst; reflexivity.
Qed.

Lemma Time_UnmarshalJSON_stamp (v : value) (t : Time) (parsed : time_Time) :
  isStamp v = true -> time_Parse E (stampOf v) = Some parsed ->
  Time_UnmarshalJSON E t (Text (marshal v)) = (mkTime parsed, None).
Proof.
  unfold Time_UnmarshalJSON.
  destruct v; simpl; intros Hs Hp; try discriminate; rewrite Hp; reflexivity.
Qed.

End RecordFacts.

Section TypedDecode.

Variable E : Env.

Lemma lastString_cons (v : value) (vs : list value) (d : string) :
  lastString (v :: vs) d = lastString vs (lastString [v] d).
Proof. destruct v; reflexivity. Qed.

Lemma mkTime_eta (t : Time) : mkTime (Time_Time t) = t.
Proof. destruct t; reflexivity. Qed.

Lemma mkTag_eta (t : Tag) : mkTag (Name t) (LastUpdated t) = t.
Proof. destruct t; reflexivity. Qed.

(** When the object decoder runs to its end, the tag holds the record's
    fields. *)
Lemma objectTag_Done (entries : list (string * value)) :
  forall cur saved t s,
    objectTag E (map marshalEntry entries) cur saved = Done t s ->
    t = mkTag (lastString (namesOf entries) (Name cur))
              (lastTime E (stampsOf entries) (LastUpdated cur)).
Proof.
  unfold namesOf, stampsOf.
  induction entries as [|[k v] rest IH]; intros cur saved t s H; simpl in H.
  - inversion H; subst. simpl. symmetry. apply mkTag_eta.
  - simpl. destruct (fieldMatch k "name") eqn:Hn.
    + rewrite (fieldMatch_name_stamp _ Hn).
      destruct (storeString (marshal v) (Name cur) saved) as [s0 saved'] eqn:Hs.
      apply IH in H. simpl in H. simpl map. rewrite lastString_cons.
      rewrite <- (storeString_marshal v (Name cur) saved), Hs. exact H.
    + destruct (fieldMatch k "last_updated") eqn:Hl.
      * destruct (Time_UnmarshalJSON E (LastUpdated cur) (Text (marshal v)))
          as [t' [e|]] eqn:Ht; [discriminate|].
        apply IH in H. simpl in H. simpl map. simpl lastTime.
        rewrite (Time_UnmarshalJSON_marshal E _ _ _ Ht), mkTime_eta. exact H.
      * apply IH in H. exact H.
Qed.

(** A record whose names are strings and whose timestamps parse is decoded
    without error. *)
Lemma objectTag_wellformed (entries : list (string * value)) :
  forallb isStamp (namesOf entries) = true ->
  Forall (fun v => isStamp v = true /\ time_Parse E (stampOf v) <> None)
    (stampsOf entries) ->
  forall cur saved,
    objectTag E (map marshalEntry entries) cur saved
    = Done (mkTag (lastString (namesOf entries) (Name cur))
                  (lastTime E (stampsOf entries) (LastUpdated cur))) saved.
Proof.
  unfold namesOf, stampsOf.
  induction entries as [|[k v] rest IH]; intros Hn Hs cur saved; simpl.
  - rewrite mkTag_eta. reflexivity.
  - simpl in Hn, Hs. destruct (fieldMatch k "name") eqn:Hk.
    + rewrite (fieldMatch_name_stamp _ Hk) in *.
      simpl in Hn. apply andb_true_iff in Hn. destruct Hn as [Hv Hn].
      destruct (storeString (marshal v) (Name cur) saved) as [s0 saved'] eqn:Hst.
      pose proof (storeString_marshal v (Name cur) saved) as H1.
      pose proof (storeString_marshal_ok v (Name cur) saved Hv) as H2.
      rewrite Hst in H1, H2. simpl in H1, H2. subst s0 saved'.
      rewrite (IH Hn Hs). simpl map. rewrite (lastString_cons v). reflexivity.
    + destruct (fieldMatch k "last_updated") eqn:Hl.
      * simpl in Hs. inversion Hs as [|? ? [Hv Hp] Hs']; subst.
        destruct (time_Parse E (stampOf v)) as [parsed|] eqn:Hparse;
          [|contradiction].
        rewrite (Time_UnmarshalJSON_stamp E v _ parsed Hv Hparse).
        rewrite (IH Hn Hs'). simpl. rewrite Hparse. reflexivity.
      * apply IH; assumption.
Qed.

Lemma valueTag_Done (r : value) (cur t : Tag) :
  accumulated r ->
  valueTag E (marshal r) cur = Done t None -> t = tagOfRecord E cur r.
Proof.
  intros Hacc. destruct r; try (simpl; discriminate).
  - simpl. intros H. inversion H; subst. unfold tagOfRecord. simpl.
    symmetry. apply mkTag_eta.
  - simpl in Hacc. rewrite (marshal_accumulated_map _ Hacc).
    simpl. intros H. apply objectTag_Done in H. exact H.
Qed.

Lemma valueTag_tagRecord (r : value) (cur tag : Tag) :
  tagRecord E r tag -> valueTag E (marshal r) cur = Done tag None.
Proof.
  intros ((entries & -> & Hinc) & Hname & stamp & Hstamp & Hparse).
  rewrite (marshal_accumulated_map _ Hinc).
  simpl in Hname, Hstamp. fold (namesOf entries) in Hname.
  fold (stampsOf entries) in Hstamp. simpl.
  rewrite objectTag_wellformed.
  - rewrite Hname, Hstamp. simpl. rewrite Hparse, mkTime_eta, mkTag_eta.
    reflexivity.
  - rewrite Hname. reflexivity.
  - rewrite Hstamp. constructor; [|constructor]. split; [reflexivity|].
    simpl. rewrite Hparse. discriminate.
Qed.

Lemma arrayTagList_Done (rs : list value) :
  Forall accumulated rs ->
  forall cur ts,
    arrayTagList E (map marshal rs) cur = Done ts None ->
    ts = tagsOfRecords E cur rs.
Proof.
  induction rs as [|r rest IH]; intros Hacc cur ts H; simpl in H.
  - inversion H. reflexivity.
  - inversion Hacc as [|? ? Hr Hrest]; subst.
    destruct (valueTag E (marshal r) (hd zeroTag cur)) as [t saved|t e] eqn:Hv;
      [|discriminate].
    destruct (arrayTagList E (map marshal rest) (tl cur)) as [ts' saved'|ts' e]
      eqn:Ha; [|discriminate].
    inversion H; subst. destruct saved; [discriminate|].
    simpl in *. subst saved'.
    rewrite (valueTag_Done _ _ _ Hr Hv), (IH Hrest _ _ Ha). reflexivity.
Qed.

Lemma arrayTagList_tagRecords (rs : list value) (tags : TagList) :
  Forall2 (tagRecord E) rs tags ->
  forall cur, arrayTagList E (map marshal rs) cur = Done tags None.
Proof.
  induction 1 as [|r tag rs tags Hr Hrest IH]; intros cur; simpl.
  - reflexivity.
  - rewrite (valueTag_tagRecord _ _ _ Hr), IH. reflexivity.
Qed.

Lemma tagsOfRecords_length (rs : list value) :
  forall cur, List.length (tagsOfRecords E cur rs) = List.length rs.
Proof.
  induction rs as [|r rest IH]; intros cur; simpl; [reflexivity|].
  rewrite IH. reflexivity.
Qed.

Lemma tagsOfRecords_nil (rs : list value) :
  tagsOfRecords E [] rs = map (tagOfRecord E zeroTag) rs.
Proof.
  induction rs as [|r rest IH]; simpl; [reflexivity|]. rewrite IH. reflexivity.
Qed.

End TypedDecode.

Section Accumulation.

Variable E : Env.

Lemma valueInterface_accumulated (j : jtext) :
  accumulated (fst (valueInterface (strconv_ParseFloat E) j)).
Proof.
  destruct j as [| b | lit | s | elems | members]; simpl; try exact I.
  - destruct (strconv_ParseFloat E lit); exact I.
  - match goal with
    | |- context [let (_, _) := ?x in _] => destruct x
    end. exact I.
  - match goal with
    | |- context [let (_, _) := ?x in _] => destruct x as [kvs e]
    end. simpl. apply map_of_members_increasing.
Qed.

Lemma arrayResults_accumulated (elems : list jtext) :
  Forall accumulated (fst (arrayResults E elems)).
Proof.
  induction elems as [|x rest IH]; simpl; [constructor|].
  pose proof (valueInterface_accumulated x) as Hx.
  destruct (valueInterface (strconv_ParseFloat E) x) as [v e].
  destruct (arrayResults E rest) as [vs es]. simpl in *.
  constructor; assumption.
Qed.

Lemma objectPage_accumulated (members : list (string * jtext)) :
  forall cur saved,
    Forall accumulated (Results cur) ->
    Forall accumulated (Results (fst (objectPage E members cur saved))).
Proof.
  induction members as [|[k x] rest IH]; intros cur saved Hcur; simpl.
  - exact Hcur.
  - destruct (fieldMatch k "count").
    { destruct x; try (apply IH; exact Hcur).
      destruct (strconv_ParseInt E lit); apply IH; exact Hcur. }
    destruct (fieldMatch k "next").
    { destruct (storeString x (Next cur) saved). apply IH. exact Hcur. }
    destruct (fieldMatch k "previous").
    { destruct (storeString x (Previous cur) saved). apply IH. exact Hcur. }
    destruct (fieldMatch k "results"); [|apply IH; exact Hcur].
    destruct x; try (apply IH; exact Hcur).
    + apply IH. constructor.
    + pose proof (arrayResults_accumulated elems) as He.
      destruct (arrayResults E elems) as [vs e]. apply IH. exact He.
Qed.

Lemma json_Unmarshal_Page_accumulated (body : Bytes) (p : Page) :
  json_Unmarshal_Page E body = inr p -> Forall accumulated (Results p).
Proof.
  destruct body as [|j]; simpl; [discriminate|].
  destruct j; try discriminate.
  - intros H. inversion H. constructor.
  - pose proof (objectPage_accumulated members zeroPage None) as Hp.
    destruct (objectPage E members zeroPage None) as [q [e|]];
      intros H; inversion H; subst. apply Hp. constructor.
Qed.

(** Every record the loop accumulates comes from a decoded page. *)
Lemma List_loop_accumulated (fuel : nat) :
  forall token url acc st rs st',
    Forall accumulated acc ->
    List_loop E fuel token url acc st = Some (inr rs, st') ->
    Forall accumulated rs.
Proof.
  induction fuel as [|fuel IH]; intros token url acc st rs st' Hacc H;
    simpl in H; destruct (String.eqb url "").
  - inversion H; subst. exact Hacc.
  - discriminate.
  - inversion H; subst. exact Hacc.
  - destruct (negb (url_Parse E url)); [discriminate|].
    unfold client_Do in H.
    destruct (roundTrip E (nDo st) (getRequest token url)) as [err|rsp];
      [discriminate|].
    destruct (Body rsp) as [err|body]; [discriminate|].
    destruct (json_Unmarshal_Page E body) as [err|page] eqn:Hp; [discriminate|].
    eapply IH; [|exact H]. apply Forall_app. split; [exact Hacc|].
    eapply json_Unmarshal_Page_accumulated. exact Hp.
Qed.

End Accumulation.

(** ** The process *)

Section ProcessFacts.

Variable E : Env.
Variable f : Flags.

Lemma main_authenticated (fuel : nat) (threshold : Duration) (token : string) :
  authenticated E f threshold token ->
  main E fuel f
  = match List E fuel token (tagsURL f) [] (loggedIn f) with
    | None => None
    | Some (_, Some err, st3) => Some (0, Println st3 (UnableToListTags err))
    | Some (tags, None, st3) =>
        match reap E f token threshold tags st3 with
        | (Some code, st4) => Some (code, st4)
        | (None, st4) => Some (0, st4)
        end
    end.
Proof.
  intros (Hthr & Hurl & rsp & body & Hrt & Hb & Ha).
  unfold main. rewrite Hthr, Hurl. simpl.
  unfold client_Do. cbn [nDo nNow log initState]. rewrite Hrt, Hb, Ha.
  reflexivity.
Qed.

End ProcessFacts.

(** ** What the typed decoder accepts and rejects *)

Lemma foldName_ascii (s : string) : isASCII s = true -> foldName s = lower s.
Proof.
  assert (Hlt : forall a k, (nat_of_ascii a <? 128)%nat = true ->
                            (128 <= k)%nat -> (nat_of_ascii a =? k)%nat = false).
  { intros a k Ha Hk. apply Nat.ltb_lt in Ha. apply Nat.eqb_neq. lia. }
  unfold isASCII. induction s as [|a rest IH]; intros H; [reflexivity|].
  simpl in H. apply andb_true_iff in H. destruct H as [Ha Hrest].
  specialize (IH Hrest). cbn [lower]. rewrite <- IH.
  destruct rest as [|b rest']; [reflexivity|].
  cbn [foldName]. rewrite (Hlt a 197%nat Ha), (Hlt a 226%nat Ha) by lia.
  simpl andb. destruct rest'; reflexivity.
Qed.

(** On keys written in ASCII the fold is the fold of letter case. *)
Lemma fieldMatch_ascii (key field : string) :
  isASCII key = true -> isASCII field = true ->
  fieldMatch key field = String.eqb (lower key) (lower field).
Proof.
  intros Hk Hf. unfold fieldMatch.
  rewrite (foldName_ascii key Hk), (foldName_ascii field Hf). reflexivity.
Qed.

(** The long s and the Kelvin sign name fields as [s] and [k] do, and
    letter case does not matter; anything else must agree byte for byte. *)
Example fieldMatch_folds :
  fieldMatch ("la" ++ Cases.longS ++ "t_updated") "last_updated" = true /\
  fieldMatch ("re" ++ Cases.longS ++ "ults") "results" = true /\
  fieldMatch ("to" ++ Cases.kelvin ++ "en") "token" = true /\
  fieldMatch "Last_Updated" "last_updated" = true /\
  fieldMatch "NAME" "name" = true /\
  fieldMatch "last-updated" "last_updated" = false /\
  fieldMatch ("na" ++ Cases.kelvin ++ "me") "name" = false.
Proof. repeat split; reflexivity. Qed.

Lemma mergeError_None (s s' : option error) :
  mergeError s s' = None <-> s = None /\ s' = None.
Proof. destruct s; simpl; split; intuition congruence. Qed.

Lemma storeString_saved (v : value) (cur : string) (saved : option error) :
  snd (storeString (marshal v) cur saved) = None <->
  saved = None /\ isStamp v = true.
Proof. destruct v, saved; simpl; split; intuition congruence. Qed.

Section DecodeOutcomes.

Variable E : Env.

Lemma Time_UnmarshalJSON_rejects (v : value) (t : Time) :
  stampParses E v = false ->
  exists e, Time_UnmarshalJSON E t (Text (marshal v)) = (t, Some e).
Proof.
  unfold stampParses, Time_UnmarshalJSON.
  destruct v; simpl; intros H; try (eexists; reflexivity);
    match goal with
    | |- context [time_Parse E ?s] => destruct (time_Parse E s)
    end; try discriminate; eexists; reflexivity.
Qed.

Lemma Time_UnmarshalJSON_accepts (v : value) (t : Time) :
  stampParses E v = true ->
  Time_UnmarshalJSON E t (Text (marshal v))
  = (match time_Parse E (stampOf v) with
     | Some parsed => mkTime parsed
     | None => t
     end, None).
Proof.
  unfold stampParses. intros H. apply andb_true_iff in H.
  destruct H as [Hs Hp].
  destruct (time_Parse E (stampOf v)) as [parsed|] eqn:Hparse; [|discriminate].
  apply Time_UnmarshalJSON_stamp; assumption.
Qed.

(** An object all of whose timestamps are accepted is decoded to its end;
    the error saved, if any, is a type error on a name. *)
Lemma objectTag_timed (entries : list (string * value)) :
  forallb (stampParses E) (stampsOf entries) = true ->
  forall cur saved,
  exists saved',
    objectTag E (map marshalEntry entries) cur saved
    = Done (mkTag (lastString (namesOf entries) (Name cur))
                  (lastTime E (stampsOf entries) (LastUpdated cur))) saved' /\
    (saved' = None <->
     saved = None /\ forallb isStamp (namesOf entries) = true).
Proof.
  unfold namesOf, stampsOf.
  induction entries as [|[k v] rest IH]; intros Hs cur saved; simpl.
  - exists saved. rewrite mkTag_eta. split; [reflexivity|]. intuition.
  - simpl in Hs. destruct (fieldMatch k "name") eqn:Hk.
    + rewrite (fieldMatch_name_stamp _ Hk) in *.
      destruct (storeString (marshal v) (Name cur) saved) as [s0 saved1] eqn:Hst.
      pose proof (storeString_marshal v (Name cur) saved) as H1.
      pose proof (storeString_saved v (Name cur) saved) as H2.
      rewrite Hst in H1, H2. simpl in H1, H2. subst s0.
      destruct (IH Hs (mkTag (lastString [v] (Name cur)) (LastUpdated cur)) saved1)
        as (saved' & Hrun & Hiff).
      exists saved'. simpl map. rewrite (lastString_cons v). simpl in Hrun.
      split; [exact Hrun|].
      simpl forallb. rewrite andb_true_iff. tauto.
    + destruct (fieldMatch k "last_updated") eqn:Hl.
      * simpl in Hs. apply andb_true_iff in Hs. destruct Hs as [Hv Hs].
        rewrite (Time_UnmarshalJSON_accepts v _ Hv).
        destruct (IH Hs (mkTag (Name cur)
                           match time_Parse E (stampOf v) with
                           | Some parsed => mkTime parsed
                           | None => LastUpdated cur
                           end) saved) as (saved' & Hrun & Hiff).
        exists saved'. split; [exact Hrun|exact Hiff].
      * apply IH. exact Hs.
Qed.

(** An object with a timestamp that is rejected makes the decoder stop. *)
Lemma objectTag_untimed (entries : list (string * value)) :
  forallb (stampParses E) (stampsOf entries) = false ->
  forall cur saved,
  exists t e, objectTag E (map marshalEntry entries) cur saved = Abort t e.
Proof.
  unfold stampsOf.
  induction entries as [|[k v] rest IH]; intros Hs cur saved; simpl.
  - discriminate.
  - simpl in Hs. destruct (fieldMatch k "name") eqn:Hk.
    + rewrite (fieldMatch_name_stamp _ Hk) in Hs.
      destruct (storeString (marshal v) (Name cur) saved). apply IH. exact Hs.
    + destruct (fieldMatch k "last_updated") eqn:Hl; [|apply IH; exact Hs].
      simpl in Hs. destruct (stampParses E v) eqn:Hv.
      * rewrite (Time_UnmarshalJSON_accepts v _ Hv). apply IH. exact Hs.
      * destruct (Time_UnmarshalJSON_rejects v (LastUpdated cur) Hv) as [e ->].
        eexists. eexists. reflexivity.
Qed.

Lemma cleanRecord_timed (r : value) :
  cleanRecord E r = true -> timedRecord E r = true.
Proof.
  destruct r; simpl; try reflexivity; try discriminate.
  unfold cleanEntries. intros H. apply andb_true_iff in H. apply H.
Qed.

Lemma valueTag_timed (r : value) (cur : Tag) :
  accumulated r -> timedRecord E r = true ->
  exists saved,
    valueTag E (marshal r) cur = Done (tagOfRecord E cur r) saved /\
    (saved = None <-> cleanRecord E r = true).
Proof.
  intros Hacc Ht.
  destruct r as [| b | fl | s | elems | entries];
    try (unfold tagOfRecord; simpl; rewrite mkTag_eta; eexists;
         split; [reflexivity|]; split; congruence).
  simpl in Hacc, Ht. rewrite (marshal_accumulated_map _ Hacc).
  unfold tagOfRecord. simpl.
  destruct (objectTag_timed entries Ht cur None) as (saved & Hrun & Hiff).
  exists saved. split; [exact Hrun|].
  unfold cleanEntries. rewrite Ht, andb_true_r. tauto.
Qed.

Lemma valueTag_untimed (r : value) (cur : Tag) :
  accumulated r -> timedRecord E r = false ->
  exists t e, valueTag E (marshal r) cur = Abort t e.
Proof.
  intros Hacc Ht. destruct r; simpl in Ht; try discriminate.
  simpl in Hacc. rewrite (marshal_accumulated_map _ Hacc). simpl.
  apply objectTag_untimed. exact Ht.
Qed.

Lemma arrayTagList_timed (rs : list value) :
  Forall accumulated rs ->
  forallb (timedRecord E) rs = true ->
  forall cur,
  exists saved,
    arrayTagList E (map marshal rs) cur = Done (tagsOfRecords E cur rs) saved /\
    (saved = None <-> forallb (cleanRecord E) rs = true).
Proof.
  induction rs as [|r rest IH]; intros Hacc Ht cur; simpl.
  - exists None. split; [reflexivity|]. split; reflexivity.
  - inversion Hacc as [|? ? Hr Hrest]; subst.
    simpl in Ht. apply andb_true_iff in Ht. destruct Ht as [Htr Htrest].
    destruct (valueTag_timed r (hd zeroTag cur) Hr Htr) as (s1 & -> & Hiff1).
    destruct (IH Hrest Htrest (tl cur)) as (s2 & -> & Hiff2).
    exists (mergeError s1 s2). split; [reflexivity|].
    rewrite mergeError_None, andb_true_iff. tauto.
Qed.

Lemma arrayTagList_untimed (rs : list value) :
  Forall accumulated rs ->
  forallb (timedRecord E) rs = false ->
  forall cur, exists ts e, arrayTagList E (map marshal rs) cur = Abort ts e.
Proof.
  induction rs as [|r rest IH]; intros Hacc Ht cur; simpl.
  - discriminate.
  - inversion Hacc as [|? ? Hr Hrest]; subst. simpl in Ht.
    destruct (timedRecord E r) eqn:Htr.
    + destruct (valueTag_timed r (hd zeroTag cur) Hr Htr) as (s1 & -> & _).
      destruct (IH Hrest Ht (tl cur)) as (ts & e & ->).
      eexists. eexists. reflexivity.
    + destruct (valueTag_untimed r (hd zeroTag cur) Hr Htr) as (t & e & ->).
      eexists. eexists. reflexivity.
Qed.

(** The typed decode of accumulated records: without error exactly when
    every record is clean, and then the tags are those of the records; with
    an error otherwise, and when that error is a mere type error the tags
    of all the records have been stored all the same. *)
Lemma json_Unmarshal_TagList_outcome (rs : list value) (cur : TagList) :
  Forall accumulated rs ->
  (forallb (cleanRecord E) rs = true ->
   json_Unmarshal_TagList E (Text (JArray (map marshal rs))) cur
   = (tagsOfRecords E cur rs, None)) /\
  (forallb (cleanRecord E) rs = false ->
   exists ts e,
     json_Unmarshal_TagList E (Text (JArray (map marshal rs))) cur
     = (ts, Some e) /\
     (forallb (timedRecord E) rs = true -> ts = tagsOfRecords E cur rs)).
Proof.
  intros Hacc. simpl. split; intros Hclean.
  - assert (Ht : forallb (timedRecord E) rs = true).
    { apply forallb_forall. intros r Hr. apply cleanRecord_timed.
      rewrite forallb_forall in Hclean. apply Hclean. exact Hr. }
    destruct (arrayTagList_timed rs Hacc Ht cur) as (saved & -> & Hiff).
    apply Hiff in Hclean. subst saved. reflexivity.
  - destruct (forallb (timedRecord E) rs) eqn:Ht.
    + destruct (arrayTagList_timed rs Hacc Ht cur) as (saved & -> & Hiff).
      destruct saved as [e|].
      * exists (tagsOfRecords E cur rs), e. split; reflexivity.
      * rewrite (proj1 Hiff eq_refl) in Hclean. discriminate.
    + destruct (arrayTagList_untimed rs Hacc Ht cur) as (ts & e & ->).
      exists ts, e. split; [reflexivity|discriminate].
Qed.

Lemma tagRecord_clean (r : value) (tag : Tag) :
  tagRecord E r tag -> cleanRecord E r = true /\ tagOfRecord E zeroTag r = tag.
Proof.
  intros ((entries & -> & Hinc) & Hname & stamp & Hstamp & Hparse).
  simpl in Hname, Hstamp. fold (namesOf entries) in Hname.
  fold (stampsOf entries) in Hstamp. split.
  - simpl. unfold cleanEntries, stampParses. rewrite Hname, Hstamp. simpl.
    rewrite Hparse. reflexivity.
  - unfold tagOfRecord. simpl. fold (namesOf entries). fold (stampsOf entries).
    rewrite Hname, Hstamp. simpl. rewrite Hparse, mkTime_eta, mkTag_eta.
    reflexivity.
Qed.

End DecodeOutcomes.

(** ** Walks that fail *)

Section WalkFailures.

Variable E : Env.

(** After the first pages of a chain, a failing fetch ends the loop with
    the error of that fetch and nothing after it in the log. *)
Lemma List_loop_fails_after (token : string) (url' : string) (err : error)
    (evs : list event) (pages : list Page) :
  forall fuel url acc st,
    servesUpTo E token (nDo st) url pages url' ->
    url' <> "" ->
    fetchFails E token (nDo st + List.length pages) url' err evs ->
    (List.length pages < fuel)%nat ->
    exists st',
      List_loop E fuel token url acc st = Some (inl err, st') /\
      log st' = log st ++ chainEvents token (nDo st) url pages ++ evs.
Proof.
  induction pages as [|p rest IH]; intros fuel url acc st Hup Hne Hfail Hfuel.
  - simpl in Hup. subst url'. rewrite Nat.add_0_r in Hfail.
    destruct fuel as [|fuel]; [simpl in Hfuel; lia|].
    simpl. rewrite (eqb_empty_false _ Hne).
    destruct Hfail as [Hurl | e Hurl Hrt | rsp e Hurl Hrt Hb
                      | rsp body e Hurl Hrt Hb Hd];
      rewrite Hurl; simpl; try rewrite Hrt; try rewrite Hb; try rewrite Hd;
      eexists; (split; [reflexivity|]); simpl;
      rewrite ?app_nil_r, <- ?app_assoc; reflexivity.
  - simpl in Hup.
    destruct Hup as (Hne0 & Hurl & (rsp & body & Hrt & Hb & Hp) & Hrest).
    destruct fuel as [|fuel]; [simpl in Hfuel; lia|].
    simpl. rewrite (eqb_empty_false _ Hne0), Hurl. simpl.
    rewrite Hrt, Hb, Hp.
    destruct (IH fuel (Next p) (acc ++ Results p)
                (Close (mkState (S (nDo st)) (nNow st)
                          (log st ++ [EvDo (nDo st) (getRequest token url)]))
                   (nDo st)))
      as (st' & Hrun & Hlog).
    + exact Hrest.
    + exact Hne.
    + cbn [Close emit nDo]. simpl in Hfail.
      replace (S (nDo st) + List.length rest)%nat
        with (nDo st + S (List.length rest))%nat by lia.
      exact Hfail.
    + simpl in Hfuel. lia.
    + exists st'. split; [exact Hrun|].
      rewrite Hlog. cbn [Close emit log nDo].
      rewrite <- !app_assoc. reflexivity.
Qed.

Lemma chainURLs_head (url : string) (pages : list Page) :
  chainURLs url pages = [] \/
  exists more, chainURLs url pages = url :: more.
Proof. destruct pages; simpl; [left; reflexivity|right; eexists; reflexivity]. Qed.

(** [List] sends page requests only, and the first of them goes to the
    URL it was called with. *)
Lemma List_requests_from (fuel : nat) (token url : string)
    (results : TagList) (st : State) (out : TagList * option error)
    (st' : State) :
  List E fuel token url results st = Some (out, st') ->
  exists urls,
    requests (log st') = requests (log st) ++ map (getRequest token) urls /\
    (urls = [] \/ exists more, urls = url :: more).
Proof.
  unfold List. destruct (List_loop E fuel token url [] st) as [[r st1]|] eqn:Hl;
    [|discriminate].
  apply List_loop_walked in Hl. intros H.
  assert (st1 = st').
  { destruct r as [err|rs].
    - inversion H; reflexivity.
    - unfold json_Marshal in H.
      destruct (json_Unmarshal_TagList E (Text (JArray (map marshal rs))) results).
      inversion H; reflexivity. }
  subst st1. clear H. destruct r as [err|rs]; simpl in Hl.
  - destruct Hl as (pages & url' & evs & Hup & _ & Hfail & Hlog).
    destruct (fetchFails_events _ _ _ _ _ _ Hfail) as [_ Hr].
    rewrite Hlog, !requests_app, requests_chainEvents.
    destruct Hr as [-> | ->].
    + exists (chainURLs url pages). rewrite app_nil_r.
      split; [reflexivity|apply chainURLs_head].
    + exists (chainURLs url pages ++ [url']). rewrite map_app.
      split; [reflexivity|]. right.
      destruct pages as [|p rest]; simpl in Hup |- *.
      * subst url'. exists []. reflexivity.
      * eexists. reflexivity.
  - destruct Hl as (pages & _ & _ & Hlog).
    rewrite Hlog, requests_app, requests_chainEvents.
    exists (chainURLs url pages). split; [reflexivity|apply chainURLs_head].
Qed.

End WalkFailures.

(** * Pagination *)

(** C1. When the server holds a chain of pages (each page's [next] is the
    URL of the following page, the last [next] is empty), [List] sends
    exactly one request per page, in chain order, and stores into the
    caller's collection the typed decoding of the concatenation of the
    pages' result records, pages in order and records in their order within
    a page; when every record fits a tag the collection holds one tag per
    record with the record's name and instant, and when the records are
    tag records the collection is exactly the tags they describe.  A
    single page with an empty [next] gives that page's results after one
    request. *)
Theorem List_concatenates_pages (E : Env) (fuel : nat) (token url : string)
    (pages : list Page) (results : TagList) (st : State) :
  servesChain E token (nDo st) url pages ->
  (List.length pages <= fuel)%nat ->
  let records := List.concat (map Results pages) in
  exists st',
    List_loop E fuel token url [] st = Some (inr records, st') /\
    List E fuel token url results st
    = Some (json_Unmarshal_TagList E (Text (JArray (map marshal records))) results,
            st') /\
    requests (log st')
    = requests (log st) ++ map (getRequest token) (chainURLs url pages) /\
    (forall tags err,
        List E fuel token url [] st = Some (tags, err, st') ->
        err = None -> tags = map (tagOfRecord E zeroTag) records) /\
    (forallb (cleanRecord E) records = true ->
     List E fuel token url [] st
     = Some (map (tagOfRecord E zeroTag) records, None, st')) /\
    (forall tags,
        Forall2 (tagRecord E) records tags ->
        List E fuel token url results st = Some (tags, None, st')) /\
    (forall p,
        pages = [p] ->
        records = Results p /\
        requests (log st') = requests (log st) ++ [getRequest token url]).
Proof.
  intros Hchain Hfuel records.
  pose proof (List_loop_chain E token pages fuel url [] st Hchain Hfuel) as Hloop.
  simpl in Hloop. fold records in Hloop.
  eexists. split; [exact Hloop|].
  assert (Hacc : Forall accumulated records).
  { eapply List_loop_accumulated; [|exact Hloop]. constructor. }
  assert (HList : forall cur,
             List E fuel token url cur st
             = Some (json_Unmarshal_TagList E
                       (Text (JArray (map marshal records))) cur,
                     mkState (nDo st + List.length pages) (nNow st)
                       (log st ++ chainEvents token (nDo st) url pages))).
  { intros cur. unfold List. rewrite Hloop. unfold json_Marshal.
    destruct (json_Unmarshal_TagList E (Text (JArray (map marshal records))) cur).
    reflexivity. }
  split; [apply HList|]. cbn [log].
  split; [rewrite requests_app, requests_chainEvents; reflexivity|].
  split; [|split; [|split]].
  - intros tags err Hrun ->. rewrite HList in Hrun.
    inversion Hrun as [Hdec]. clear Hrun. simpl in Hdec.
    destruct (arrayTagList E (map marshal records) []) as [ts saved|ts e] eqn:Ha;
      inversion Hdec; subst.
    rewrite (arrayTagList_Done E records Hacc _ _ Ha).
    apply tagsOfRecords_nil.
  - intros Hclean. rewrite HList.
    destruct (json_Unmarshal_TagList_outcome E records [] Hacc) as [Hok _].
    rewrite (Hok Hclean), tagsOfRecords_nil. reflexivity.
  - intros tags Htags. rewrite HList. simpl.
    rewrite (arrayTagList_tagRecords E records tags Htags). reflexivity.
  - intros p ->. unfold records. simpl. rewrite app_nil_r.
    split; [reflexivity|]. log_requests. reflexivity.
Qed.

(** C1, on the two-page registry. *)
Lemma List_concatenates_pages_witness :
  servesChain Sample.healthy "tok" 1 (tagsURL Sample.flags)
    [Sample.decoded1; Sample.decoded2] /\
  exists st',
    List Sample.healthy 2 "tok" (tagsURL Sample.flags) [] (loggedIn Sample.flags)
    = Some ([Sample.tagV1; Sample.tagV2], None, st') /\
    requests (log st')
    = [loginRequest Sample.flags; getRequest "tok" (tagsURL Sample.flags);
       getRequest "tok" Sample.page2URL].
Proof.
  assert (Hchain : servesChain Sample.healthy "tok" 1 (tagsURL Sample.flags)
                     [Sample.decoded1; Sample.decoded2]).
  { simpl. repeat split; try discriminate; try reflexivity;
      eexists; eexists; repeat split; vm_compute; reflexivity. }
  split; [exact Hchain|].
  destruct (List_concatenates_pages Sample.healthy 2 "tok" (tagsURL Sample.flags)
              [Sample.decoded1; Sample.decoded2] [] (loggedIn Sample.flags)
              Hchain (le_n 2)) as (st' & _ & HList & Hreq & _).
  exists st'. split; [exact HList|exact Hreq].
Defined.

(** C8. On a finite chain of pages whose last [next] is empty, [List]
    terminates: it returns as soon as it is allowed one request per page,
    with the same result however many more it is allowed, and it has then
    sent one request per page; allowed fewer requests than there are pages
    it is still running, so the loop ends at the empty cursor and not
    before. *)
Theorem List_terminates_on_finite_chain (E : Env) (token url : string)
    (pages : list Page) (results : TagList) (st : State) :
  servesChain E token (nDo st) url pages ->
  exists out st',
    (forall fuel, (List.length pages <= fuel)%nat ->
                  List E fuel token url results st = Some (out, st')) /\
    nDo st' = (nDo st + List.length pages)%nat /\
    (forall fuel, (fuel < List.length pages)%nat ->
                  List E fuel token url results st = None).
Proof.
  intros Hchain.
  exists (json_Unmarshal_TagList E
            (Text (JArray (map marshal (List.concat (map Results pages)))))
            results).
  eexists. split; [|split].
  - intros fuel Hfuel. unfold List.
    rewrite (List_loop_chain E token pages fuel url [] st Hchain Hfuel).
    unfold json_Marshal. simpl app.
    destruct (json_Unmarshal_TagList E
                (Text (JArray (map marshal (List.concat (map Results pages)))))
                results).
    reflexivity.
  - reflexivity.
  - intros fuel Hfuel. unfold List.
    rewrite (List_loop_chain_short E token pages fuel url [] st Hchain Hfuel).
    reflexivity.
Qed.

(** C8, on the two-page registry: two requests are enough, one is not. *)
Lemma List_terminates_on_finite_chain_witness :
  servesChain Sample.healthy "tok" 1 (tagsURL Sample.flags)
    [Sample.decoded1; Sample.decoded2] /\
  exists out st',
    List Sample.healthy 2 "tok" (tagsURL Sample.flags) [] (loggedIn Sample.flags)
    = Some (out, st') /\
    List Sample.healthy 1 "tok" (tagsURL Sample.flags) [] (loggedIn Sample.flags)
    = None.
Proof.
  assert (Hchain : servesChain Sample.healthy "tok" 1 (tagsURL Sample.flags)
                     [Sample.decoded1; Sample.decoded2]).
  { simpl. repeat split; try discriminate; try reflexivity;
      eexists; eexists; repeat split; vm_compute; reflexivity. }
  split; [exact Hchain|].
  destruct (List_terminates_on_finite_chain Sample.healthy "tok"
              (tagsURL Sample.flags) [Sample.decoded1; Sample.decoded2] []
              (loggedIn Sample.flags) Hchain) as (out & st' & Hdone & _ & Hshort).
  exists out, st'. split; [apply Hdone; simpl; lia|apply Hshort; simpl; lia].
Defined.

(** * Timestamps *)

(** C10. [Time.UnmarshalJSON] succeeds exactly on a JSON string that
    [time.Parse] accepts in the RFC 3339 layout with fractional seconds, and
    the receiver then holds the parsed instant; on any other input (bytes
    that are not JSON, a JSON value that is not a string, a string that does
    not parse) it returns an error and the receiver keeps its time.
    [time.Parse] rejects the empty string, which is what [null] decodes
    to. *)
Theorem Time_UnmarshalJSON_spec (E : Env) (t : Time) (data : Bytes) :
  time_Parse E "" = None ->
  match data with
  | Text (JString s) =>
      match time_Parse E s with
      | Some parsed => Time_UnmarshalJSON E t data = (mkTime parsed, None)
      | None => exists err, Time_UnmarshalJSON E t data = (t, Some err)
      end
  | _ => exists err, Time_UnmarshalJSON E t data = (t, Some err)
  end.
Proof.
  intros Hempty. unfold Time_UnmarshalJSON.
  destruct data as [|j]; simpl; [eexists; reflexivity|].
  destruct j; simpl; try (eexists; reflexivity).
  - rewrite Hempty. eexists; reflexivity.
  - destruct (time_Parse E s); [reflexivity|eexists; reflexivity].
Qed.

(** C10, on a timestamp, on [null] and on a number. *)
Lemma Time_UnmarshalJSON_spec_witness :
  time_Parse Sample.healthy "" = None /\
  Time_UnmarshalJSON Sample.healthy (mkTime zeroTime)
    (Text (JString "2020-01-01T00:00:00Z"))
  = (mkTime 1577836800000000000, None) /\
  (exists err,
      Time_UnmarshalJSON Sample.healthy (mkTime 7) (Text JNull)
      = (mkTime 7, Some err)) /\
  (exists err,
      Time_UnmarshalJSON Sample.healthy (mkTime 7) (Text (JNumber "5"))
      = (mkTime 7, Some err)).
Proof.
  assert (Hempty : time_Parse Sample.healthy "" = None) by reflexivity.
  split; [exact Hempty|]. split; [|split].
  - exact (Time_UnmarshalJSON_spec Sample.healthy (mkTime zeroTime)
             (Text (JString "2020-01-01T00:00:00Z")) Hempty).
  - exact (Time_UnmarshalJSON_spec Sample.healthy (mkTime 7) (Text JNull) Hempty).
  - exact (Time_UnmarshalJSON_spec Sample.healthy (mkTime 7)
             (Text (JNumber "5")) Hempty).
Defined.

(** * The typed collection *)

(** C7. A record sequence accumulated by the pagination loop always
    re-encodes, and decoding the re-encoded text into the typed collection
    drops nothing silently.  When every record fits a tag (it is an object
    or [null], what it holds under [name] is a string or [null], what it
    holds under [last_updated] is a timestamp [Time.UnmarshalJSON] accepts)
    the decode succeeds and the collection has one tag per record, in the
    records' order, the [i]-th tag holding the name and the instant of the
    [i]-th record; when some record does not fit, the decode returns an
    error.  So a decode without error has kept the count, the order and the
    fields.  Keys name a field up to letter case, and of several values
    under keys naming the same field the last in key order is kept; for a
    tag record (one name, one timestamp) the tag is exactly the one the
    record describes. *)
Theorem typed_decode_preserves_records (E : Env) (fuel : nat)
    (token url : string) (st : State) (records : list value) (st' : State) :
  List_loop E fuel token url [] st = Some (inr records, st') ->
  exists raw,
    json_Marshal records = inr raw /\
    (forallb (cleanRecord E) records = true ->
     json_Unmarshal_TagList E raw []
     = (map (tagOfRecord E zeroTag) records, None)) /\
    (forallb (cleanRecord E) records = false ->
     exists tags err, json_Unmarshal_TagList E raw [] = (tags, Some err)) /\
    (forall tags,
        json_Unmarshal_TagList E raw [] = (tags, None) ->
        forallb (cleanRecord E) records = true /\
        List.length tags = List.length records /\
        tags = map (tagOfRecord E zeroTag) records /\
        forall i r,
          nth_error records i = Some r ->
          nth_error tags i = Some (tagOfRecord E zeroTag r)) /\
    (forall tags,
        Forall2 (tagRecord E) records tags ->
        json_Unmarshal_TagList E raw [] = (tags, None)) /\
    (forall r tag,
        tagRecord E r tag ->
        cleanRecord E r = true /\ tagOfRecord E zeroTag r = tag).
Proof.
  intros Hloop.
  assert (Hacc : Forall accumulated records).
  { eapply List_loop_accumulated; [|exact Hloop]. constructor. }
  destruct (json_Unmarshal_TagList_outcome E records [] Hacc) as [Hok Hbad].
  rewrite tagsOfRecords_nil in Hok.
  exists (Text (JArray (map marshal records))).
  split; [reflexivity|]. split; [exact Hok|]. split.
  { intros Hclean. destruct (Hbad Hclean) as (ts & e & Hdec & _).
    exists ts, e. exact Hdec. }
  split.
  { intros tags Hdec.
    destruct (forallb (cleanRecord E) records) eqn:Hclean.
    - rewrite (Hok eq_refl) in Hdec. inversion Hdec; subst.
      split; [reflexivity|]. split; [apply length_map|].
      split; [reflexivity|].
      intros i r Hr. rewrite nth_error_map, Hr. reflexivity.
    - destruct (Hbad eq_refl) as (ts & e & Hdec' & _).
      rewrite Hdec' in Hdec. discriminate. }
  split.
  - intros tags Htags. simpl.
    rewrite (arrayTagList_tagRecords E records tags Htags). reflexivity.
  - intros r tag Hr. apply tagRecord_clean. exact Hr.
Qed.

(** C7, on the record of a registry that writes its keys in capitals, and
    on the same record with a number for a name. *)
Lemma typed_decode_preserves_records_witness :
  exists st',
    List_loop Cases.capitals 1 "tok" (tagsURL Sample.flags) []
      (loggedIn Sample.flags)
    = Some (inr [Cases.capitalRecord], st') /\
    exists raw,
      json_Marshal [Cases.capitalRecord] = inr raw /\
      json_Unmarshal_TagList Cases.capitals raw [] = ([Sample.tagV1], None) /\
      cleanRecord Cases.capitals
        (VMap [("last_updated", VString "2020-01-01T00:00:00Z");
               ("name", VFloat "5")]) = false.
Proof.
  assert (Hloop : exists st',
             List_loop Cases.capitals 1 "tok" (tagsURL Sample.flags) []
               (loggedIn Sample.flags)
             = Some (inr [Cases.capitalRecord], st'))
    by (eexists; vm_compute; reflexivity).
  destruct Hloop as [st' Hloop]. exists st'. split; [exact Hloop|].
  destruct (typed_decode_preserves_records Cases.capitals 1 "tok"
              (tagsURL Sample.flags) (loggedIn Sample.flags) _ _ Hloop)
    as (raw & Hraw & Hok & _).
  exists raw. split; [exact Hraw|]. split; [exact (Hok eq_refl)|reflexivity].
Defined.

(** A number under [name] is not dropped silently: the decode reports a
    type error, having stored the tag without a name. *)
Example number_for_a_name_is_an_error :
  json_Unmarshal_TagList Sample.healthy
    (Text (JArray [marshal (VMap [("last_updated", VString "2020-01-01T00:00:00Z");
                                  ("name", VFloat "5")])])) []
  = ([mkTag "" (mkTime 1577836800000000000)],
     Some (UnmarshalTypeError "string")).
Proof. reflexivity. Qed.

(** A bad timestamp under [last_updated] spelt with a long s is found: the
    record is not a tag record and the decode stops at it. *)
Example long_s_names_the_timestamp :
  cleanRecord Sample.healthy Cases.twiceStamped = false /\
  json_Unmarshal_TagList Sample.healthy
    (Text (JArray [marshal Cases.twiceStamped])) []
  = ([mkTag "" (mkTime 1577836800000000000)], Some (ParseError "garbage")).
Proof. split; reflexivity. Qed.

(** * Reaping *)

(** C2. The requests the reap loop sends are, in order, exactly the
    delete requests of the tags whose age, [time.Since] of their last
    update at their turn, is strictly greater than the threshold: all of
    them when the loop runs to its end, the first of them when the process
    exits inside the loop, and never one for a tag that is not over the
    threshold.  The delete request of a tag has method DELETE, goes to the
    tag's URL below the user and image of the flags, presents the token and
    has no body.  A tag whose age equals the threshold is retained; a
    nanosecond more and it is selected.  The age is the difference of the
    two instants whenever that difference is a [Duration]. *)
Theorem reap_deletes_strictly_older (E : Env) (f : Flags) (token : string)
    (threshold : Duration) (tags : TagList) (st : State)
    (r : option Z) (st' : State) :
  reap E f token threshold tags st = (r, st') ->
  (exists k,
      requests (log st')
      = requests (log st)
          ++ firstn k (map (deleteOf f token) (selected E threshold (nNow st) tags))) /\
  (r = None ->
   requests (log st')
   = requests (log st)
       ++ map (deleteOf f token) (selected E threshold (nNow st) tags)) /\
  (forall tag,
      deleteOf f token tag
      = mkRequest MethodDelete
          ("https://hub.docker.com/v2/repositories/" ++ username f ++ "/"
             ++ image f ++ "/tags/" ++ Name tag ++ "/")%string
          [("Authorization", ("JWT " ++ token)%string)] None) /\
  (forall n tag rest,
      selected E threshold n (tag :: rest)
      = if threshold <? ageAt E n tag
        then tag :: selected E threshold (n + 2) rest
        else selected E threshold (n + 1) rest) /\
  (forall n tag,
      (threshold <? ageAt E n tag) = true <-> threshold < ageAt E n tag) /\
  (forall n tag,
      ageAt E n tag = threshold -> selected E threshold n [tag] = []) /\
  (forall n tag,
      ageAt E n tag = threshold + 1 -> selected E threshold n [tag] = [tag]) /\
  (forall n tag,
      minDuration <= clock E n - Time_Time (LastUpdated tag) <= maxDuration ->
      ageAt E n tag = clock E n - Time_Time (LastUpdated tag)).
Proof.
  intros Hrun.
  destruct (reap_requests E f token threshold tags st r st' Hrun)
    as (_ & Hprefix & Hall).
  split; [exact Hprefix|]. split; [exact Hall|].
  split; [reflexivity|].
  split; [reflexivity|]. split; [intros n tag; apply Z.ltb_lt|].
  split; [|split].
  - intros n tag Hage. simpl. rewrite Hage, Z.ltb_irrefl. reflexivity.
  - intros n tag Hage. simpl. rewrite Hage.
    replace (threshold <? threshold + 1) with true; [reflexivity|].
    symmetry. apply Z.ltb_lt. lia.
  - intros n tag Hrange. apply time_Sub_exact. exact Hrange.
Qed.

(** C2, on a tag exactly 24h old followed by one a nanosecond older: one
    request, a DELETE to the URL of the older tag. *)
Lemma reap_deletes_strictly_older_witness :
  exists st',
    reap Sample.healthy Sample.flags "tok" 86400000000000
      [Sample.tagExact; Sample.tagOlder] initState
    = (None, st') /\
    requests (log st')
    = [mkRequest MethodDelete
         "https://hub.docker.com/v2/repositories/u/i/tags/older/"
         [("Authorization", "JWT tok")] None].
Proof.
  assert (Hrun : exists st',
             reap Sample.healthy Sample.flags "tok" 86400000000000
               [Sample.tagExact; Sample.tagOlder] initState
             = (None, st')) by (eexists; vm_compute; reflexivity).
  destruct Hrun as [st' Hrun]. exists st'. split; [exact Hrun|].
  destruct (reap_deletes_strictly_older Sample.healthy Sample.flags "tok"
              86400000000000 [Sample.tagExact; Sample.tagOlder] initState
              None st' Hrun) as (_ & Hall & _).
  exact (Hall eq_refl).
Defined.

(** C5. When the delete attempt for a selected tag cannot be completed,
    because the request cannot be built or the transport fails, the process
    prints the diagnostic and exits with code 1 in that very iteration: the
    tags that follow get no request, and the requests already sent for
    earlier tags are all there is, nothing is sent to undo them. *)
Theorem delete_failure_is_fatal (E : Env) (fuel : nat) (f : Flags)
    (threshold : Duration) (token : string) (pre : TagList) (tag : Tag)
    (post : TagList) (st0 st1 : State) :
  authenticated E f threshold token ->
  List E fuel token (tagsURL f) [] (loggedIn f)
  = Some (pre ++ tag :: post, None, st0) ->
  reap E f token threshold pre st0 = (None, st1) ->
  (threshold <? ageAt E (nNow st1) tag) = true ->
  deleteFails E f token tag st1 ->
  exists st2 diag,
    main E fuel f = Some (1, st2) /\
    isFatalLine diag /\
    printed (log st2)
    = printed (log st1)
        ++ [DeletingTag (Name tag) (ageAt E (S (nNow st1)) tag); diag] /\
    requests (log st2)
    = requests (log st0)
        ++ map (deleteOf f token) (selected E threshold (nNow st0) pre)
        ++ (if url_Parse E (deleteURL f (Name tag)) then [deleteOf f token tag]
            else []).
Proof.
  intros Hauth HList Hpre Hsel Hfail.
  destruct (reapTag_fatal E f token threshold tag st1 Hsel Hfail)
    as (st2 & diag & Hstep & Hdiag & Hprinted & Hsent).
  exists st2, diag.
  rewrite (main_authenticated E f fuel threshold token Hauth), HList.
  rewrite reap_app, Hpre. simpl. rewrite Hstep.
  split; [reflexivity|]. split; [exact Hdiag|]. split; [exact Hprinted|].
  destruct (reap_requests E f token threshold pre st0 None st1 Hpre)
    as (_ & _ & Hall).
  rewrite Hsent, (Hall eq_refl), <- app_assoc. reflexivity.
Qed.

(** C5, on two old tags with the transport failing at the first delete:
    the second tag gets no request. *)
Lemma delete_failure_is_fatal_witness :
  authenticated Sample.offline Sample.flags 86400000000000 "tok" /\
  exists st2,
    main Sample.offline 2 Sample.flags = Some (1, st2) /\
    requests (log st2)
    = [loginRequest Sample.flags; getRequest "tok" (tagsURL Sample.flags);
       getRequest "tok" Sample.page2URL;
       deleteRequest Sample.flags "tok" "v1"].
Proof.
  assert (Hauth : authenticated Sample.offline Sample.flags 86400000000000 "tok").
  { split; [reflexivity|]. split; [reflexivity|].
    eexists; eexists; repeat split; reflexivity. }
  split; [exact Hauth|].
  assert (HList : exists st0,
             List Sample.offline 2 "tok" (tagsURL Sample.flags) []
               (loggedIn Sample.flags)
             = Some ([] ++ Sample.tagV1 :: [Sample.tagV2old], None, st0) /\
             requests (log st0)
             = [loginRequest Sample.flags;
                getRequest "tok" (tagsURL Sample.flags);
                getRequest "tok" Sample.page2URL])
    by (eexists; split; vm_compute; reflexivity).
  destruct HList as (st0 & HList & Hreq0).
  destruct (delete_failure_is_fatal Sample.offline 2 Sample.flags
              86400000000000 "tok" [] Sample.tagV1 [Sample.tagV2old] st0 st0
              Hauth HList eq_refl eq_refl)
    as (st2 & diag & Hmain & _ & _ & Hreq).
  { right. eexists. reflexivity. }
  exists st2. split; [exact Hmain|]. rewrite Hreq, Hreq0. reflexivity.
Defined.

(** C6. When every delete attempt is completed by a response, whatever its
    status, the loop runs over all the tags and the process exits with code
    0: every selected tag gets its request, and for each attempt the line
    announcing the deletion is followed by a status diagnostic exactly when
    the status is not 204. *)
Theorem unexpected_status_is_not_fatal (E : Env) (fuel : nat) (f : Flags)
    (threshold : Duration) (token : string) (tags : TagList) (st0 : State) :
  authenticated E f threshold token ->
  List E fuel token (tagsURL f) [] (loggedIn f) = Some (tags, None, st0) ->
  allAnswered E f token tags ->
  exists st,
    main E fuel f = Some (0, st) /\
    requests (log st)
    = requests (log st0)
        ++ map (deleteOf f token) (selected E threshold (nNow st0) tags) /\
    printed (log st)
    = printed (log st0)
        ++ reapLines E f token threshold (nDo st0) (nNow st0) tags /\
    (forall rsp,
        statusLines rsp
        = if StatusCode rsp =? 204 then []
          else [UnexpectedStatusCode (StatusCode rsp)]).
Proof.
  intros Hauth HList Hans.
  destruct (reap_answered E f token threshold tags Hans st0)
    as (st & Hloop & Hprinted).
  exists st.
  rewrite (main_authenticated E f fuel threshold token Hauth), HList, Hloop.
  split; [reflexivity|].
  destruct (reap_requests E f token threshold tags st0 None st Hloop)
    as (_ & _ & Hall).
  split; [exact (Hall eq_refl)|]. split; [exact Hprinted|]. reflexivity.
Qed.

(** C6, on two old tags whose deletes are both answered with 403. *)
Lemma unexpected_status_is_not_fatal_witness :
  authenticated Sample.refusing Sample.flags 86400000000000 "tok" /\
  allAnswered Sample.refusing Sample.flags "tok" [Sample.tagV1; Sample.tagV2old] /\
  exists st,
    main Sample.refusing 2 Sample.flags = Some (0, st) /\
    printed (log st)
    = [DeletingTag "v1" 172800000000000; UnexpectedStatusCode 403;
       DeletingTag "v2" 172800000000000; UnexpectedStatusCode 403].
Proof.
  assert (Hauth : authenticated Sample.refusing Sample.flags 86400000000000 "tok").
  { split; [reflexivity|]. split; [reflexivity|].
    eexists; eexists; repeat split; reflexivity. }
  assert (Hans : allAnswered Sample.refusing Sample.flags "tok"
                   [Sample.tagV1; Sample.tagV2old]).
  { repeat constructor; intros n; eexists; reflexivity. }
  split; [exact Hauth|]. split; [exact Hans|].
  assert (HList : exists st0,
             List Sample.refusing 2 "tok" (tagsURL Sample.flags) []
               (loggedIn Sample.flags)
             = Some ([Sample.tagV1; Sample.tagV2old], None, st0) /\
             printed (log st0) = [] /\ nDo st0 = 3%nat /\ nNow st0 = 0%nat)
    by (eexists; repeat split; vm_compute; reflexivity).
  destruct HList as (st0 & HList & Hp0 & Hd0 & Hn0).
  destruct (unexpected_status_is_not_fatal Sample.refusing 2 Sample.flags
              86400000000000 "tok" _ st0 Hauth HList Hans)
    as (st & Hmain & _ & Hprinted & _).
  exists st. split; [exact Hmain|].
  rewrite Hprinted, Hp0, Hd0, Hn0. vm_compute. reflexivity.
Defined.

(** * Listing failures *)

(** C4. When [List] returns an error the process prints the listing
    diagnostic, and nothing else, and exits with code 0; its requests are
    the login and page requests, no delete request among them. *)
Theorem listing_failure_exits_zero (E : Env) (fuel : nat) (f : Flags)
    (threshold : Duration) (token : string) (tags : TagList) (err : error)
    (st3 : State) :
  authenticated E f threshold token ->
  List E fuel token (tagsURL f) [] (loggedIn f) = Some (tags, Some err, st3) ->
  exists st,
    main E fuel f = Some (0, st) /\
    printed (log st) = [UnableToListTags err] /\
    Forall (fun r => isDelete r = false) (requests (log st)).
Proof.
  intros Hauth HList.
  exists (Println st3 (UnableToListTags err)).
  rewrite (main_authenticated E f fuel threshold token Hauth), HList.
  split; [reflexivity|].
  destruct (List_requests E fuel token (tagsURL f) [] (loggedIn f) _ _ HList)
    as (Hprinted & urls & Hreq).
  cbn [Println emit log]. rewrite printed_app, requests_app, Hprinted, Hreq.
  simpl. split; [reflexivity|].
  rewrite app_nil_r. constructor; [reflexivity|].
  apply Forall_forall. intros r Hin. apply in_map_iff in Hin.
  destruct Hin as (u & <- & _). reflexivity.
Qed.

(** C4, on a second page that is not JSON. *)
Lemma listing_failure_exits_zero_witness :
  authenticated
    (Sample.env (fun _ => true)
       (Sample.registry Sample.page1 (Sample.ok Garbage) Sample.noContent))
    Sample.flags 86400000000000 "tok" /\
  exists st,
    main (Sample.env (fun _ => true)
            (Sample.registry Sample.page1 (Sample.ok Garbage) Sample.noContent))
      2 Sample.flags
    = Some (0, st) /\
    printed (log st) = [UnableToListTags SyntaxError].
Proof.
  set (E := Sample.env (fun _ => true)
              (Sample.registry Sample.page1 (Sample.ok Garbage) Sample.noContent)).
  assert (Hauth : authenticated E Sample.flags 86400000000000 "tok").
  { split; [reflexivity|]. split; [reflexivity|].
    eexists; eexists; repeat split; reflexivity. }
  split; [exact Hauth|].
  assert (HList : exists st3,
             List E 2 "tok" (tagsURL Sample.flags) [] (loggedIn Sample.flags)
             = Some ([], Some SyntaxError, st3))
    by (eexists; vm_compute; reflexivity).
  destruct HList as (st3 & HList).
  destruct (listing_failure_exits_zero E 2 Sample.flags 86400000000000 "tok"
              [] SyntaxError st3 Hauth HList) as (st & Hmain & Hprinted & _).
  exists st. split; [exact Hmain|exact Hprinted].
Defined.

(** C9 fails in [List]: when the body of a page response cannot be read,
    [List] returns the read error without closing that body.  Here the
    first page request (request 1, after the login) is answered and its
    body is still open when [List] returns. *)
Theorem List_leaks_unread_body :
  exists st',
    List Sample.unreadable 2 "tok" (tagsURL Sample.flags) []
      (loggedIn Sample.flags)
    = Some ([], Some (NetError 1), st') /\
    requests (log st')
    = [loginRequest Sample.flags; getRequest "tok" (tagsURL Sample.flags)] /\
    leaked Sample.unreadable (log st') = [1%nat].
Proof. eexists. repeat split; vm_compute; reflexivity. Qed.

(** Where the body is read, it is closed: a chain of pages walked to its
    end leaves no body open. *)
Lemma main_healthy_leaks_nothing :
  option_map (fun r => leaked Sample.healthy (log (snd r)))
    (main Sample.healthy 2 Sample.flags)
  = Some [].
Proof. vm_compute. reflexivity. Qed.

(** C3 as stated fails at the final decode: a page whose second record
    carries an unparseable timestamp makes [List] return the parse error
    with the caller's empty collection now holding two tags, the first
    record's and a half-filled one. *)
Lemma List_error_changes_collection :
  exists st',
    List Sample.staleStamp 2 "tok" (tagsURL Sample.flags) []
      (loggedIn Sample.flags)
    = Some ([Sample.tagV1; zeroTag], Some (ParseError "yesterday"), st') /\
    [Sample.tagV1; zeroTag] <> @nil Tag.
Proof. eexists. split; [vm_compute; reflexivity|discriminate]. Qed.

(** C3, amended.  A failure during the pagination walk: after the first
    pages of a chain the next fetch fails (the request cannot be built, the
    transport fails, the body cannot be read or is not a page).  [List]
    then returns the error of that fetch, the log ends with that fetch, and
    the caller's collection is unchanged.  A failure of the final typed
    decode: the whole chain is walked and some record does not fit a tag.
    [List] then returns the decoder's error, but the collection is what
    the decoder left in it; after a mere type error that is one tag for
    every record.  These two are the only ways [List] returns an error. *)
Theorem List_error_stages (E : Env) (token url : string) (results : TagList)
    (st : State) :
  (forall fuel pages url' err evs,
      servesUpTo E token (nDo st) url pages url' ->
      url' <> "" ->
      fetchFails E token (nDo st + List.length pages) url' err evs ->
      (List.length pages < fuel)%nat ->
      exists st',
        List E fuel token url results st = Some (results, Some err, st') /\
        log st' = log st ++ chainEvents token (nDo st) url pages ++ evs) /\
  (forall fuel pages,
      servesChain E token (nDo st) url pages ->
      (List.length pages <= fuel)%nat ->
      forallb (cleanRecord E) (List.concat (map Results pages)) = false ->
      exists results' err st',
        List E fuel token url results st = Some (results', Some err, st') /\
        log st' = log st ++ chainEvents token (nDo st) url pages /\
        (forallb (timedRecord E) (List.concat (map Results pages)) = true ->
         results' = tagsOfRecords E results (List.concat (map Results pages)))) /\
  (forall fuel results' err st',
      List E fuel token url results st = Some (results', Some err, st') ->
      (results' = results /\
       exists pages url' evs,
         servesUpTo E token (nDo st) url pages url' /\ url' <> "" /\
         fetchFails E token (nDo st + List.length pages) url' err evs /\
         log st' = log st ++ chainEvents token (nDo st) url pages ++ evs) \/
      (exists pages,
          servesChain E token (nDo st) url pages /\
          forallb (cleanRecord E) (List.concat (map Results pages)) = false /\
          log st' = log st ++ chainEvents token (nDo st) url pages)).
Proof.
  split; [|split].
  - intros fuel pages url' err evs Hup Hne Hfail Hfuel.
    destruct (List_loop_fails_after E token url' err evs pages fuel url []
                st Hup Hne Hfail Hfuel) as (st' & Hloop & Hlog).
    exists st'. unfold List. rewrite Hloop. split; [reflexivity|exact Hlog].
  - intros fuel pages Hchain Hfuel Hunclean.
    pose proof (List_loop_chain E token pages fuel url [] st Hchain Hfuel)
      as Hloop.
    simpl in Hloop.
    assert (Hacc : Forall accumulated (List.concat (map Results pages))).
    { eapply List_loop_accumulated; [|exact Hloop]. constructor. }
    destruct (json_Unmarshal_TagList_outcome E _ results Hacc) as [_ Hbad].
    destruct (Hbad Hunclean) as (ts & e & Hdec & Hts).
    exists ts, e. eexists. unfold List. rewrite Hloop. unfold json_Marshal.
    rewrite Hdec. split; [reflexivity|]. split; [reflexivity|exact Hts].
  - intros fuel results' err st'. unfold List.
    destruct (List_loop E fuel token url [] st) as [[r st1]|] eqn:Hloop;
      [|discriminate].
    pose proof (List_loop_accumulated E fuel token url [] st) as Hacc.
    pose proof (List_loop_walked E fuel _ _ _ _ _ _ Hloop) as Hwalk.
    destruct r as [e|rs]; simpl in Hwalk.
    + intros H. inversion H; subst. left. split; [reflexivity|exact Hwalk].
    + specialize (Hacc rs st1 (Forall_nil _) Hloop). unfold json_Marshal.
      destruct (json_Unmarshal_TagList_outcome E rs results Hacc) as [Hok _].
      destruct (json_Unmarshal_TagList E (Text (JArray (map marshal rs))) results)
        as [ts e] eqn:Hdec.
      intros H. inversion H; subst. right.
      destruct Hwalk as (pages & Hchain & Hrs & Hlog).
      exists pages. simpl in Hrs. subst rs.
      split; [exact Hchain|]. split; [|exact Hlog].
      destruct (forallb (cleanRecord E) (List.concat (map Results pages)));
        [|reflexivity].
      specialize (Hok eq_refl). discriminate.
Qed.

(** C3 amended, on a second page that is not JSON: the error is the page
    decoder's, nothing follows the failed fetch and the collection is
    untouched. *)
Lemma List_error_stages_witness :
  exists st',
    List (Sample.env (fun _ => true)
            (Sample.registry Sample.page1 (Sample.ok Garbage) Sample.noContent))
      2 "tok" (tagsURL Sample.flags) [Sample.tagV1] (loggedIn Sample.flags)
    = Some ([Sample.tagV1], Some SyntaxError, st') /\
    log st'
    = log (loggedIn Sample.flags)
        ++ [EvDo 1 (getRequest "tok" (tagsURL Sample.flags)); EvClose 1]
        ++ [EvDo 2 (getRequest "tok" Sample.page2URL); EvClose 2].
Proof.
  set (E := Sample.env (fun _ => true)
              (Sample.registry Sample.page1 (Sample.ok Garbage) Sample.noContent)).
  destruct (List_error_stages E "tok" (tagsURL Sample.flags) [Sample.tagV1]
              (loggedIn Sample.flags)) as (Hwalk & _ & _).
  destruct (Hwalk 2%nat [Sample.decoded1] Sample.page2URL SyntaxError
              [EvDo 2 (getRequest "tok" Sample.page2URL); EvClose 2])
    as (st' & HList & Hlog).
  - simpl. repeat split; try discriminate; try reflexivity.
    eexists; eexists; repeat split; vm_compute; reflexivity.
  - discriminate.
  - eapply FailsDecode; vm_compute; reflexivity.
  - simpl. lia.
  - exists st'. split; [exact HList|exact Hlog].
Defined.

(** * Beyond the claims *)

(** ** Start-up *)

(** X1. A failure before the listing (a threshold that does not parse, a
    login request that cannot be built, is not answered, whose body cannot
    be read or does not decode) makes the process print that one diagnostic
    and exit with code 1, however many page requests it would be allowed:
    the only request it can have sent is the login, no page and no tag is
    touched. *)
Theorem startup_failure_is_fatal (E : Env) (f : Flags) (l : line)
    (evs : list event) :
  startupFails E f l evs ->
  forall fuel,
  exists st,
    main E fuel f = Some (1, st) /\
    log st = evs ++ [EvPrint l] /\
    printed (log st) = [l] /\
    Forall (fun r => r = loginRequest f) (requests (log st)).
Proof.
  intros Hfail fuel. unfold main.
  destruct Hfail as [Hthr | thr Hthr Hurl | thr err Hthr Hurl Hrt
                    | thr rsp err Hthr Hurl Hrt Hb
                    | thr rsp body err Hthr Hurl Hrt Hb Hdec];
    rewrite Hthr; try rewrite Hurl; simpl;
    try (unfold client_Do; cbn [nDo nNow log initState]; rewrite Hrt);
    try rewrite Hb; try rewrite Hdec;
    eexists; (split; [reflexivity|]); simpl;
    repeat split; repeat constructor.
Qed.

(** X1, on a login that cannot be reached. *)
Lemma startup_failure_is_fatal_witness :
  startupFails Cases.downEnv Sample.flags
    (UnableToAuthenticate (NetError 111)) [EvDo 0 (loginRequest Sample.flags)] /\
  exists st,
    main Cases.downEnv 5 Sample.flags = Some (1, st) /\
    printed (log st) = [UnableToAuthenticate (NetError 111)].
Proof.
  assert (Hfail : startupFails Cases.downEnv Sample.flags
                    (UnableToAuthenticate (NetError 111))
                    [EvDo 0 (loginRequest Sample.flags)]).
  { apply LoginUnanswered with (threshold := 86400000000000); reflexivity. }
  split; [exact Hfail|].
  destruct (startup_failure_is_fatal Cases.downEnv Sample.flags _ _ Hfail 5)
    as (st & Hmain & _ & Hprinted & _).
  exists st. split; [exact Hmain|exact Hprinted].
Defined.

(** ** The requests of a run *)

Lemma selected_incl (E : Env) (threshold : Duration) (tags : TagList) :
  forall n, incl (selected E threshold n tags) tags.
Proof.
  induction tags as [|tag rest IH]; intros n; simpl.
  - apply incl_refl.
  - destruct (threshold <? ageAt E n tag).
    + apply incl_cons; [left; reflexivity|].
      apply incl_tl. apply IH.
    + apply incl_tl. apply IH.
Qed.

Lemma firstn_incl {A : Type} (k : nat) (l : list A) : incl (firstn k l) l.
Proof.
  revert k. induction l as [|x l IH]; intros [|k]; simpl;
    try apply incl_nil_l.
  apply incl_cons; [left; reflexivity|]. apply incl_tl. apply IH.
Qed.

Lemma carriesToken_requests (f : Flags) (token : string)
    (urls : list string) (dels : TagList) :
  Forall (carriesToken token)
    (map (getRequest token) urls ++ map (deleteOf f token) dels).
Proof.
  apply Forall_app. split; apply Forall_forall; intros r Hin;
    apply in_map_iff in Hin; destruct Hin as (x & <- & _);
    unfold carriesToken; simpl; auto.
Qed.

(** The requests of a run that got past the login. *)
Lemma main_requests (E : Env) (fuel : nat) (f : Flags)
    (threshold : Duration) (token : string) (code : Z) (st : State) :
  authenticated E f threshold token ->
  main E fuel f = Some (code, st) ->
  exists listed err st3 urls dels,
    List E fuel token (tagsURL f) [] (loggedIn f) = Some (listed, err, st3) /\
    requests (log st)
    = loginRequest f
        :: map (getRequest token) urls ++ map (deleteOf f token) dels /\
    incl dels listed /\
    (err <> None -> dels = []) /\
    Forall (carriesToken token)
      (map (getRequest token) urls ++ map (deleteOf f token) dels).
Proof.
  intros Hauth Hmain.
  rewrite (main_authenticated E f fuel threshold token Hauth) in Hmain.
  destruct (List E fuel token (tagsURL f) [] (loggedIn f))
    as [[[listed err] st3]|] eqn:HList; [|discriminate].
  destruct (List_requests E fuel token (tagsURL f) [] (loggedIn f) _ _ HList)
    as (_ & urls & Hreq).
  simpl in Hreq. exists listed, err, st3, urls.
  destruct err as [e|].
  - inversion Hmain; subst. exists []. split; [reflexivity|].
    split.
    { cbn [Println emit log]. rewrite requests_app, Hreq. simpl.
      rewrite !app_nil_r. reflexivity. }
    split; [apply incl_nil_l|]. split; [reflexivity|].
    apply carriesToken_requests.
  - destruct (reap E f token threshold listed st3) as [r st4] eqn:Hreap.
    assert (st4 = st) by (destruct r; inversion Hmain; reflexivity).
    subst st4.
    destruct (reap_requests E f token threshold listed st3 r st Hreap)
      as (_ & (k & Hk) & _).
    exists (firstn k (selected E threshold (nNow st3) listed)).
    split; [reflexivity|].
    rewrite Hk, Hreq, <- firstn_map. simpl. split; [reflexivity|].
    split.
    + eapply incl_tran; [apply firstn_incl|apply selected_incl].
    + split; [intros H; contradiction|].
      rewrite firstn_map. apply carriesToken_requests.
Qed.

(** X2. Once logged in, a run sends its requests in three phases and
    nothing else: the login, a POST of the credentials to the login URL;
    then page requests, each a GET, the first of them to the tag list of
    the user and image of the flags; then delete requests, each a DELETE
    to the URL of a tag that [List] returned, below that same tag list.
    Every page and delete request presents the token of the login, and
    when [List] returned an error there is no delete request at all. *)
Theorem main_request_shape (E : Env) (fuel : nat) (f : Flags)
    (threshold : Duration) (token : string) (code : Z) (st : State) :
  authenticated E f threshold token ->
  main E fuel f = Some (code, st) ->
  exists listed err st3 urls dels,
    List E fuel token (tagsURL f) [] (loggedIn f) = Some (listed, err, st3) /\
    requests (log st)
    = loginRequest f
        :: map (getRequest token) urls ++ map (deleteOf f token) dels /\
    incl dels listed /\
    (err <> None -> dels = []) /\
    Forall (carriesToken token)
      (map (getRequest token) urls ++ map (deleteOf f token) dels) /\
    (urls = [] \/
     exists more,
       urls
       = ("https://hub.docker.com/v2/repositories/" ++ username f ++ "/"
            ++ image f ++ "/tags")%string :: more) /\
    loginRequest f
    = mkRequest MethodPost "https://hub.docker.com/v2/users/login/"
        [("Content-Type", "application/json")]
        (Some (JObject [("password", JString (password f));
                        ("username", JString (username f))])) /\
    (forall u,
        getRequest token u
        = mkRequest MethodGet u
            [("Content-Type", "application/json");
             ("Authorization", ("JWT " ++ token)%string)] None) /\
    (forall tag,
        deleteOf f token tag
        = mkRequest MethodDelete
            ("https://hub.docker.com/v2/repositories/" ++ username f ++ "/"
               ++ image f ++ "/tags/" ++ Name tag ++ "/")%string
            [("Authorization", ("JWT " ++ token)%string)] None).
Proof.
  intros Hauth Hmain.
  rewrite (main_authenticated E f fuel threshold token Hauth) in Hmain.
  destruct (List E fuel token (tagsURL f) [] (loggedIn f))
    as [[[listed err] st3]|] eqn:HList; [|discriminate].
  destruct (List_requests_from E fuel token (tagsURL f) [] (loggedIn f) _ _ HList)
    as (urls & Hreq & Hfirst).
  simpl in Hreq. exists listed, err, st3, urls.
  assert (Hshape : exists dels,
             requests (log st)
             = loginRequest f
                 :: map (getRequest token) urls ++ map (deleteOf f token) dels /\
             incl dels listed /\ (err <> None -> dels = [])).
  { destruct err as [e|].
    - inversion Hmain; subst. exists []. split.
      + cbn [Println emit log]. rewrite requests_app, Hreq. simpl.
        rewrite !app_nil_r. reflexivity.
      + split; [apply incl_nil_l|reflexivity].
    - destruct (reap E f token threshold listed st3) as [r st4] eqn:Hreap.
      assert (st4 = st) by (destruct r; inversion Hmain; reflexivity).
      subst st4.
      destruct (reap_requests E f token threshold listed st3 r st Hreap)
        as (_ & (k & Hk) & _).
      exists (firstn k (selected E threshold (nNow st3) listed)).
      rewrite Hk, Hreq, <- firstn_map. simpl. split; [reflexivity|].
      split; [|intros H; contradiction].
      eapply incl_tran; [apply firstn_incl|apply selected_incl]. }
  destruct Hshape as (dels & Hrequests & Hincl & Hnone).
  exists dels. split; [reflexivity|]. split; [exact Hrequests|].
  split; [exact Hincl|]. split; [exact Hnone|].
  split; [apply carriesToken_requests|]. split; [exact Hfirst|].
  repeat split.
Qed.

(** X2, on the healthy registry: the four requests of the run. *)
Lemma main_request_shape_witness :
  authenticated Sample.healthy Sample.flags 86400000000000 "tok" /\
  exists st,
    main Sample.healthy 2 Sample.flags = Some (0, st) /\
    requests (log st)
    = [mkRequest MethodPost "https://hub.docker.com/v2/users/login/"
         [("Content-Type", "application/json")]
         (Some (JObject [("password", JString "secret");
                         ("username", JString "u")]));
       mkRequest MethodGet "https://hub.docker.com/v2/repositories/u/i/tags"
         [("Content-Type", "application/json"); ("Authorization", "JWT tok")]
         None;
       mkRequest MethodGet
         "https://hub.docker.com/v2/repositories/u/i/tags?page=2"
         [("Content-Type", "application/json"); ("Authorization", "JWT tok")]
         None;
       mkRequest MethodDelete
         "https://hub.docker.com/v2/repositories/u/i/tags/v1/"
         [("Authorization", "JWT tok")] None] /\
    exists listed err st3 urls dels,
      List Sample.healthy 2 "tok" (tagsURL Sample.flags) []
        (loggedIn Sample.flags) = Some (listed, err, st3) /\
      requests (log st)
      = loginRequest Sample.flags
          :: map (getRequest "tok") urls
               ++ map (deleteOf Sample.flags "tok") dels /\
      incl dels listed.
Proof.
  assert (Hauth : authenticated Sample.healthy Sample.flags 86400000000000 "tok").
  { split; [reflexivity|]. split; [reflexivity|].
    eexists; eexists; repeat split; reflexivity. }
  split; [exact Hauth|].
  assert (Hmain : exists st,
             main Sample.healthy 2 Sample.flags = Some (0, st) /\
             requests (log st)
             = [loginRequest Sample.flags;
                getRequest "tok" (tagsURL Sample.flags);
                getRequest "tok" Sample.page2URL;
                deleteRequest Sample.flags "tok" "v1"])
    by (eexists; split; vm_compute; reflexivity).
  destruct Hmain as (st & Hmain & Hfour).
  destruct (main_request_shape Sample.healthy 2 Sample.flags 86400000000000
              "tok" 0 st Hauth Hmain)
    as (listed & err & st3 & urls & dels & HList & Hreq & Hincl & _).
  exists st. split; [exact Hmain|]. split; [exact Hfour|].
  exists listed, err, st3, urls, dels.
  repeat split; assumption.
Defined.

(** ** Answers that carry no data *)

Lemma objectAuth_noField (members : list (string * jtext)) :
  noField "token" members = true ->
  forall cur saved, objectAuth members cur saved = (cur, saved).
Proof.
  induction members as [|[k x] rest IH]; intros H cur saved; simpl.
  - reflexivity.
  - simpl in H. apply andb_true_iff in H. destruct H as [Hk Hrest].
    apply negb_true_iff in Hk. simpl in Hk. rewrite Hk. apply IH. exact Hrest.
Qed.

Lemma pageless_cons (k : string) (x : jtext) (rest : list (string * jtext)) :
  pageless ((k, x) :: rest) = true ->
  fieldMatch k "count" = false /\ fieldMatch k "next" = false /\
  fieldMatch k "previous" = false /\ fieldMatch k "results" = false /\
  pageless rest = true.
Proof.
  unfold pageless, noField. simpl. intros H.
  repeat (apply andb_true_iff in H; destruct H as [H ?]).
  repeat match goal with
         | H : (_ && _) = true |- _ => apply andb_true_iff in H; destruct H
         | H : negb _ = true |- _ => apply negb_true_iff in H
         end.
  repeat split; try assumption.
  repeat (apply andb_true_iff; split); assumption.
Qed.

Lemma objectPage_pageless (E : Env) (members : list (string * jtext)) :
  pageless members = true ->
  forall cur saved, objectPage E members cur saved = (cur, saved).
Proof.
  induction members as [|[k x] rest IH]; intros H cur saved; simpl.
  - reflexivity.
  - apply pageless_cons in H. destruct H as (Hc & Hn & Hp & Hr & Hrest).
    rewrite Hc, Hn, Hp, Hr. apply IH. exact Hrest.
Qed.

(** X3. The login is not checked beyond its body being a JSON object:
    whatever the status of the answer, an object (keys in ASCII) without a
    token logs the process in with the empty token, and every request that
    follows presents [Authorization: JWT ] with nothing after it. *)
Theorem login_without_token (E : Env) (f : Flags) (threshold : Duration)
    (rsp : Response) (members : list (string * jtext)) :
  time_ParseDuration E (thresholdStr f) = Some threshold ->
  url_Parse E loginURL = true ->
  roundTrip E 0 (loginRequest f) = inr rsp ->
  Body rsp = inr (Text (JObject members)) ->
  asciiKeys members = true ->
  noField "token" members = true ->
  authenticated E f threshold "" /\
  forall fuel code st,
    main E fuel f = Some (code, st) ->
    exists urls dels,
      requests (log st)
      = loginRequest f :: map (getRequest "") urls ++ map (deleteOf f "") dels /\
      Forall (carriesToken "")
        (map (getRequest "") urls ++ map (deleteOf f "") dels).
Proof.
  intros Hthr Hurl Hrt Hb _ Hno.
  assert (Hauth : authenticated E f threshold "").
  { split; [exact Hthr|]. split; [exact Hurl|].
    exists rsp, (Text (JObject members)). repeat split; try assumption.
    simpl. rewrite (objectAuth_noField members Hno). reflexivity. }
  split; [exact Hauth|]. intros fuel code st Hmain.
  destruct (main_requests E fuel f threshold "" code st Hauth Hmain)
    as (listed & err & st3 & urls & dels & _ & Hreq & _ & _ & Hcarry).
  exists urls, dels. split; assumption.
Qed.

(** X3, on a login refused with a 401: the page request goes out with the
    empty token. *)
Lemma login_without_token_witness :
  exists st,
    main Cases.deniedEnv 2 Sample.flags = Some (0, st) /\
    requests (log st)
    = [loginRequest Sample.flags; getRequest "" (tagsURL Sample.flags)] /\
    authenticated Cases.deniedEnv Sample.flags 86400000000000 "".
Proof.
  assert (Hmain : exists st,
             main Cases.deniedEnv 2 Sample.flags = Some (0, st) /\
             requests (log st)
             = [loginRequest Sample.flags; getRequest "" (tagsURL Sample.flags)])
    by (eexists; split; vm_compute; reflexivity).
  destruct Hmain as (st & Hmain & Hreq). exists st.
  split; [exact Hmain|]. split; [exact Hreq|].
  exact (proj1 (login_without_token Cases.deniedEnv Sample.flags 86400000000000
                  _ _ eq_refl eq_refl eq_refl eq_refl eq_refl eq_refl)).
Defined.

Lemma tagsURL_not_empty (f : Flags) : tagsURL f <> "".
Proof. unfold tagsURL. simpl. discriminate. Qed.

(** X4. The first page is not checked beyond its body being a JSON object
    either: whatever its status, an answer (keys in ASCII) that carries
    none of the fields of a page counts as a last page without results.
    The process then sends nothing more, prints nothing and exits with
    code 0. *)
Theorem fieldless_page_is_empty_list (E : Env) (f : Flags)
    (threshold : Duration) (token : string) (rsp : Response)
    (members : list (string * jtext)) (fuel : nat) :
  authenticated E f threshold token ->
  url_Parse E (tagsURL f) = true ->
  roundTrip E 1 (getRequest token (tagsURL f)) = inr rsp ->
  Body rsp = inr (Text (JObject members)) ->
  asciiKeys members = true ->
  pageless members = true ->
  (1 <= fuel)%nat ->
  exists st,
    List E fuel token (tagsURL f) [] (loggedIn f) = Some ([], None, st) /\
    main E fuel f = Some (0, st) /\
    printed (log st) = [] /\
    requests (log st) = [loginRequest f; getRequest token (tagsURL f)].
Proof.
  intros Hauth Hurl Hrt Hb _ Hless Hfuel.
  assert (Hchain : servesChain E token (nDo (loggedIn f)) (tagsURL f) [zeroPage]).
  { simpl. split; [apply tagsURL_not_empty|]. split; [exact Hurl|].
    split; [|reflexivity].
    exists rsp, (Text (JObject members)). repeat split; try assumption.
    simpl. rewrite (objectPage_pageless E members Hless). reflexivity. }
  pose proof (List_loop_chain E token [zeroPage] fuel (tagsURL f) []
                (loggedIn f) Hchain Hfuel) as Hloop.
  assert (HList : List E fuel token (tagsURL f) [] (loggedIn f)
                  = Some ([], None,
                          mkState 2 0
                            (log (loggedIn f)
                               ++ [EvDo 1 (getRequest token (tagsURL f));
                                   EvClose 1]))).
  { unfold List. rewrite Hloop. reflexivity. }
  eexists. split; [exact HList|].
  rewrite (main_authenticated E f fuel threshold token Hauth), HList.
  simpl. repeat split.
Qed.

(** X4, on a repository answered with a 404. *)
Lemma fieldless_page_is_empty_list_witness :
  authenticated Cases.notFoundEnv Sample.flags 86400000000000 "tok" /\
  exists st,
    main Cases.notFoundEnv 1 Sample.flags = Some (0, st) /\
    printed (log st) = [].
Proof.
  assert (Hauth : authenticated Cases.notFoundEnv Sample.flags
                    86400000000000 "tok").
  { split; [reflexivity|]. split; [reflexivity|].
    eexists; eexists; repeat split; reflexivity. }
  split; [exact Hauth|].
  destruct (fieldless_page_is_empty_list Cases.notFoundEnv Sample.flags
              86400000000000 "tok" _ _ 1 Hauth eq_refl eq_refl eq_refl
              eq_refl eq_refl (le_n 1)) as (st & _ & Hmain & Hprinted & _).
  exists st. split; [exact Hmain|exact Hprinted].
Defined.

(** ** Ages *)

Lemma minDuration_value : minDuration = -9223372036854775808.
Proof. reflexivity. Qed.

Lemma maxDuration_value : maxDuration = 9223372036854775807.
Proof. reflexivity. Qed.

Lemma time_Sub_cases (t u : time_Time) :
  (t - u < minDuration /\ time_Sub t u = minDuration) \/
  (maxDuration < t - u /\ time_Sub t u = maxDuration) \/
  (minDuration <= t - u <= maxDuration /\ time_Sub t u = t - u).
Proof.
  unfold time_Sub.
  destruct (t - u <? minDuration) eqn:H1.
  - apply Z.ltb_lt in H1. left. split; [exact H1|reflexivity].
  - apply Z.ltb_ge in H1. destruct (maxDuration <? t - u) eqn:H2.
    + apply Z.ltb_lt in H2. right. left. split; [exact H2|reflexivity].
    + apply Z.ltb_ge in H2. right. right. split; [lia|reflexivity].
Qed.

Lemma time_Sub_le_max (t u : time_Time) : time_Sub t u <= maxDuration.
Proof.
  pose proof minDuration_value. pose proof maxDuration_value.
  destruct (time_Sub_cases t u) as [[? ->]|[[? ->]|[? ->]]]; lia.
Qed.


Lemma time_Sub_nonpos (t u : time_Time) : t <= u -> time_Sub t u <= 0.
Proof.
  intros Hle. pose proof minDuration_value. pose proof maxDuration_value.
  destruct (time_Sub_cases t u) as [[? ->]|[[? ->]|[? ->]]]; lia.
Qed.

(** Splits the printed lines of a log that extends [log st]. *)
Ltac printed_tail :=
  cbn [log Println Close emit nDo nNow announced];
  repeat rewrite <- app_assoc; rewrite printed_app; reflexivity.

Section AgeFacts.

Variable E : Env.
Variable f : Flags.
Variable token : string.
Variable threshold : Duration.



(** A loop over tags none of which can be selected at any clock reading
    runs to its end without a request or a printed line. *)
Lemma reap_none_selected (tags : TagList) :
  (forall n tag, In tag tags -> (threshold <? ageAt E n tag) = false) ->
  forall st, exists st',
    reap E f token threshold tags st = (None, st') /\
    requests (log st') = requests (log st) /\
    printed (log st') = printed (log st).
Proof.
  induction tags as [|tag rest IH]; intros Hnone st; simpl.
  - exists st. repeat split.
  - rewrite (reapTag_retained E f token threshold tag st
               (Hnone _ tag (or_introl eq_refl))).
    destruct (IH (fun n t Ht => Hnone n t (or_intror Ht))
                (mkState (nDo st) (S (nNow st)) (log st ++ [EvNow (nNow st)])))
      as (st' & Hrun & Hreq & Hprinted).
    exists st'. split; [exact Hrun|]. rewrite Hreq, Hprinted.
    cbn [log]. log_simpl. split; reflexivity.
Qed.

End AgeFacts.



(** X6. An age is a [Duration] and stops at the largest one, about 292
    years.  With the threshold at that maximum (or above it) no tag is
    ever selected, however old: the loop runs to its end without a request
    or a printed line. *)
Theorem threshold_max_never_deletes (E : Env) (f : Flags) (token : string)
    (threshold : Duration) (tags : TagList) (st : State) :
  maxDuration <= threshold ->
  exists st',
    reap E f token threshold tags st = (None, st') /\
    requests (log st') = requests (log st) /\
    printed (log st') = printed (log st).
Proof.
  intros Hmax. apply reap_none_selected. intros n tag _.
  apply Z.ltb_ge. unfold ageAt.
  pose proof (time_Sub_le_max (clock E n) (Time_Time (LastUpdated tag))). lia.
Qed.

(** X6, on a tag dated year 1 under the maximal threshold. *)
Lemma threshold_max_never_deletes_witness :
  exists st',
    reap Sample.healthy Sample.flags "tok" maxDuration [zeroTag] initState
    = (None, st') /\
    requests (log st') = [].
Proof.
  destruct (threshold_max_never_deletes Sample.healthy Sample.flags "tok"
              maxDuration [zeroTag] initState (Z.le_refl _))
    as (st' & Hrun & Hreq & _).
  exists st'. split; [exact Hrun|exact Hreq].
Defined.

(** X7. A tag whose last update lies at or after every reading of the
    clock has an age of zero or less: under a threshold that is not
    negative such tags are all retained, without a request or a printed
    line. *)
Theorem future_tags_are_kept (E : Env) (f : Flags) (token : string)
    (threshold : Duration) (tags : TagList) (st : State) :
  0 <= threshold ->
  (forall n tag, In tag tags -> clock E n <= Time_Time (LastUpdated tag)) ->
  exists st',
    reap E f token threshold tags st = (None, st') /\
    requests (log st') = requests (log st) /\
    printed (log st') = printed (log st).
Proof.
  intros Hthr Hfuture. apply reap_none_selected. intros n tag Hin.
  apply Z.ltb_ge. unfold ageAt.
  pose proof (time_Sub_nonpos _ _ (Hfuture n tag Hin)). lia.
Qed.

(** X7, on a tag dated an hour ahead of the clock. *)
Lemma future_tags_are_kept_witness :
  exists st',
    reap Sample.healthy Sample.flags "tok" 0 [Cases.tagAhead] initState
    = (None, st') /\
    requests (log st') = [].
Proof.
  destruct (future_tags_are_kept Sample.healthy Sample.flags "tok" 0
              [Cases.tagAhead] initState (Z.le_refl _))
    as (st' & Hrun & Hreq & _).
  { intros n tag [<-|[]]. vm_compute. discriminate. }
  exists st'. split; [exact Hrun|exact Hreq].
Defined.

(** X8. A record (keys in ASCII) that carries no timestamp decodes to a
    tag dated 1 January of year 1.  Read at any time since 1970 its age is the
    largest [Duration], so the tag is selected for deletion under every
    threshold below that maximum. *)
Theorem record_without_timestamp_is_deleted (E : Env) (threshold : Duration)
    (r : value) (tag : Tag) (n : nat) :
  accumulated r ->
  asciiRecord r = true ->
  fieldValues "last_updated" r = [] ->
  valueTag E (marshal r) zeroTag = Done tag None ->
  0 <= clock E n ->
  threshold < maxDuration ->
  LastUpdated tag = mkTime zeroTime /\
  ageAt E n tag = maxDuration /\
  selected E threshold n [tag] = [tag].
Proof.
  intros Hacc _ Hnone Hdec Hclock Hthr.
  apply (valueTag_Done E r zeroTag tag Hacc) in Hdec.
  assert (Htime : LastUpdated tag = mkTime zeroTime).
  { subst tag. unfold tagOfRecord. rewrite Hnone. reflexivity. }
  assert (Hage : ageAt E n tag = maxDuration).
  { unfold ageAt. rewrite Htime. simpl.
    pose proof minDuration_value. pose proof maxDuration_value.
    assert (Hz : zeroTime = -62135596800000000000) by reflexivity.
    destruct (time_Sub_cases (clock E n) zeroTime)
      as [[? ->]|[[? ->]|[? ->]]]; lia. }
  split; [exact Htime|]. split; [exact Hage|].
  simpl. rewrite Hage.
  replace (threshold <? maxDuration) with true; [reflexivity|].
  symmetry. apply Z.ltb_lt. exact Hthr.
Qed.

(** X8, on a record that only has a name, under a threshold of 24h. *)
Lemma record_without_timestamp_is_deleted_witness :
  valueTag Sample.healthy (marshal Cases.bareRecord) zeroTag
  = Done (mkTag "v3" (mkTime zeroTime)) None /\
  selected Sample.healthy 86400000000000 0 [mkTag "v3" (mkTime zeroTime)]
  = [mkTag "v3" (mkTime zeroTime)].
Proof.
  assert (Hdec : valueTag Sample.healthy (marshal Cases.bareRecord) zeroTag
                 = Done (mkTag "v3" (mkTime zeroTime)) None) by reflexivity.
  split; [exact Hdec|].
  refine (proj2 (proj2 (record_without_timestamp_is_deleted Sample.healthy
                          86400000000000 Cases.bareRecord _ 0 _ eq_refl
                          eq_refl Hdec _ _))).
  - simpl. repeat constructor.
  - discriminate.
  - reflexivity.
Defined.

(** ** Response bodies *)

Section BodyFacts.

Variable E : Env.

Lemma leaked_In (l : list event) (n : nat) :
  In n (leaked E l) <->
  exists r rsp,
    In (EvDo n r) l /\ roundTrip E n r = inr rsp /\ closed n l = false.
Proof.
  unfold leaked. rewrite in_flat_map. split.
  - intros (e & Hin & Hn). destruct e as [m r| | |]; try contradiction.
    destruct (roundTrip E m r) as [err|rsp] eqn:Hrt; [contradiction|].
    destruct (closed m l) eqn:Hc; [contradiction|].
    destruct Hn as [<-|[]]. exists r, rsp. repeat split; assumption.
  - intros (r & rsp & Hin & Hrt & Hc). exists (EvDo n r).
    split; [exact Hin|]. rewrite Hrt, Hc. left. reflexivity.
Qed.

Lemma closed_app (n : nat) (l1 l2 : list event) :
  closed n (l1 ++ l2) = closed n l1 || closed n l2.
Proof. unfold closed. apply existsb_app. Qed.

(** Events that close the bodies they obtain add no open body to a log. *)
Lemma leaked_extend (Q : nat -> Prop) (l evs : list event) :
  closesBodies E Q evs ->
  forall n, In n (leaked E (l ++ evs)) -> In n (leaked E l) \/ Q n.
Proof.
  intros Hevs n Hn. apply leaked_In in Hn.
  destruct Hn as (r & rsp & Hin & Hrt & Hc).
  rewrite closed_app in Hc. apply orb_false_iff in Hc. destruct Hc as [Hc1 Hc2].
  apply in_app_or in Hin. destruct Hin as [Hin|Hin].
  - left. apply leaked_In. exists r, rsp. repeat split; assumption.
  - destruct (Hevs n r rsp Hin Hrt) as [Hc|HQ]; [congruence|right; exact HQ].
Qed.

Lemma closesBodies_app (Q : nat -> Prop) (evs1 evs2 : list event) :
  closesBodies E Q evs1 -> closesBodies E Q evs2 ->
  closesBodies E Q (evs1 ++ evs2).
Proof.
  intros H1 H2 n r rsp Hin Hrt. rewrite closed_app.
  apply in_app_or in Hin. destruct Hin as [Hin|Hin].
  - destruct (H1 n r rsp Hin Hrt) as [->|HQ]; [left; reflexivity|right; exact HQ].
  - destruct (H2 n r rsp Hin Hrt) as [->|HQ];
      [left; apply orb_true_r|right; exact HQ].
Qed.

Lemma closesBodies_nil (Q : nat -> Prop) : closesBodies E Q [].
Proof. intros n r rsp []. Qed.

Lemma closesBodies_chainEvents (Q : nat -> Prop) (token : string)
    (pages : list Page) :
  forall d url, closesBodies E Q (chainEvents token d url pages).
Proof.
  induction pages as [|p rest IH]; intros d url; simpl.
  - apply closesBodies_nil.
  - apply (closesBodies_app Q [EvDo d (getRequest token url); EvClose d]);
      [|apply IH].
    intros n r rsp [H|[H|[]]] _; inversion H; subst.
    left. unfold closed. simpl. rewrite Nat.eqb_refl. reflexivity.
Qed.

Lemma closesBodies_fetchFails (token : string) (n : nat) (url : string)
    (err : error) (evs : list event) :
  fetchFails E token n url err evs -> closesBodies E (unreadBody E) evs.
Proof.
  destruct 1 as [Hurl | e Hurl Hrt | rsp e Hurl Hrt Hb | rsp body e Hurl Hrt Hb Hd];
    intros m r rsp' Hin Hans; simpl in Hin.
  - contradiction.
  - destruct Hin as [H|[]]. inversion H; subst. congruence.
  - destruct Hin as [H|[]]. inversion H; subst.
    right. exists (getRequest token url), rsp, e. split; assumption.
  - destruct Hin as [H|[H|[]]]; inversion H; subst.
    left. unfold closed. simpl. rewrite Nat.eqb_refl. reflexivity.
Qed.

Variable f : Flags.
Variable token : string.
Variable threshold : Duration.

Lemma reapTag_events (tag : Tag) (st : State) (r : option Z) (st' : State) :
  reapTag E f token threshold tag st = (r, st') ->
  exists evs,
    log st' = log st ++ evs /\ closesBodies E (fun _ => False) evs.
Proof.
  intros Hrun. destruct (threshold <? ageAt E (nNow st) tag) eqn:Hsel.
  - rewrite (reapTag_selected E f token threshold tag st Hsel) in Hrun.
    destruct (url_Parse E (deleteURL f (Name tag))); simpl in Hrun.
    + unfold client_Do in Hrun. cbn [nDo nNow log announced] in Hrun.
      destruct (roundTrip E (nDo st) (deleteOf f token tag)) as [err|rsp] eqn:Hrt.
      * inversion Hrun; subst. cbn [log Println emit].
        rewrite <- !app_assoc. eexists. split; [reflexivity|].
        intros n q rsp Hin Hans. simpl in Hin.
        repeat (destruct Hin as [H|Hin]; [try discriminate|]);
          try contradiction.
        inversion H; subst. congruence.
      * destruct (StatusCode rsp =? StatusNoContent);
          inversion Hrun; subst; cbn [log Println Close emit];
          rewrite <- !app_assoc; eexists; (split; [reflexivity|]);
          intros n q rsp' Hin Hans; simpl in Hin;
          repeat (destruct Hin as [H|Hin]; [try discriminate|]);
          try contradiction;
          inversion H; subst; left; unfold closed; simpl;
          rewrite Nat.eqb_refl; reflexivity.
    + inversion Hrun; subst. cbn [log Println emit announced].
      rewrite <- !app_assoc. eexists. split; [reflexivity|].
      intros n q rsp Hin Hans. simpl in Hin.
      repeat (destruct Hin as [H|Hin]; [discriminate|]). contradiction.
  - rewrite (reapTag_retained E f token threshold tag st Hsel) in Hrun.
    inversion Hrun; subst. eexists. split; [reflexivity|].
    intros n q rsp [H|[]] _. discriminate.
Qed.

Lemma reap_events (tags : TagList) :
  forall st r st',
    reap E f token threshold tags st = (r, st') ->
    exists evs,
      log st' = log st ++ evs /\ closesBodies E (fun _ => False) evs.
Proof.
  induction tags as [|tag rest IH]; intros st r st' Hrun; simpl in Hrun.
  - inversion Hrun; subst. exists []. rewrite app_nil_r.
    split; [reflexivity|apply closesBodies_nil].
  - destruct (reapTag E f token threshold tag st) as [r1 st1] eqn:Hstep.
    destruct (reapTag_events tag st r1 st1 Hstep) as (e1 & Hl1 & Hc1).
    destruct r1 as [code|].
    + inversion Hrun; subst. exists e1. split; assumption.
    + destruct (IH _ _ _ Hrun) as (e2 & Hl2 & Hc2).
      exists (e1 ++ e2). rewrite Hl2, Hl1, <- app_assoc.
      split; [reflexivity|apply closesBodies_app; assumption].
Qed.

End BodyFacts.

(** X9. The reap loop closes the body of every response it obtains, on
    every path: whatever the statuses, and also when the process exits
    inside the loop, a body that is open after the loop was already open
    before it. *)
Theorem reap_closes_bodies (E : Env) (f : Flags) (token : string)
    (threshold : Duration) (tags : TagList) (st : State) (r : option Z)
    (st' : State) :
  reap E f token threshold tags st = (r, st') ->
  forall n, In n (leaked E (log st')) -> In n (leaked E (log st)).
Proof.
  intros Hrun n Hn.
  destruct (reap_events E f token threshold tags st r st' Hrun)
    as (evs & Hlog & Hclose).
  rewrite Hlog in Hn.
  destruct (leaked_extend E (fun _ => False) (log st) evs Hclose n Hn)
    as [H|[]].
  exact H.
Qed.

(** X9, on two old tags whose deletes are answered with 403. *)
Lemma reap_closes_bodies_witness :
  exists st',
    reap Sample.refusing Sample.flags "tok" 86400000000000
      [Sample.tagV1; Sample.tagV2old] initState = (None, st') /\
    forall n, In n (leaked Sample.refusing (log st')) -> False.
Proof.
  assert (Hrun : exists st',
             reap Sample.refusing Sample.flags "tok" 86400000000000
               [Sample.tagV1; Sample.tagV2old] initState = (None, st'))
    by (eexists; vm_compute; reflexivity).
  destruct Hrun as (st' & Hrun). exists st'. split; [exact Hrun|].
  intros n Hn.
  exact (reap_closes_bodies Sample.refusing Sample.flags "tok" 86400000000000
           _ initState None st' Hrun n Hn).
Defined.

(** X10. [List] leaves a response body open only when reading that body
    failed: after [List] has returned, with or without an error, every
    body that was not already open before the call and is open now belongs
    to a response whose body could not be read. *)
Theorem List_leaks_only_unread_bodies (E : Env) (fuel : nat)
    (token url : string) (results : TagList) (st : State)
    (out : TagList * option error) (st' : State) :
  List E fuel token url results st = Some (out, st') ->
  forall n,
    In n (leaked E (log st')) -> In n (leaked E (log st)) \/ unreadBody E n.
Proof.
  unfold List.
  destruct (List_loop E fuel token url [] st) as [[r st1]|] eqn:Hloop;
    [|discriminate].
  apply List_loop_walked in Hloop. intros H.
  assert (st1 = st').
  { destruct r as [err|rs].
    - inversion H; reflexivity.
    - unfold json_Marshal in H.
      destruct (json_Unmarshal_TagList E (Text (JArray (map marshal rs))) results).
      inversion H; reflexivity. }
  subst st1. clear H. intros n.
  destruct r as [err|rs]; simpl in Hloop.
  - destruct Hloop as (pages & url' & evs & _ & _ & Hfail & Hlog).
    rewrite Hlog. apply leaked_extend. apply closesBodies_app.
    + apply closesBodies_chainEvents.
    + eapply closesBodies_fetchFails. exact Hfail.
  - destruct Hloop as (pages & _ & _ & Hlog).
    rewrite Hlog. apply leaked_extend. apply closesBodies_chainEvents.
Qed.

(** X10, on the two-page registry: nothing is left open. *)
Lemma List_leaks_only_unread_bodies_witness :
  exists out st',
    List Sample.healthy 2 "tok" (tagsURL Sample.flags) []
      (loggedIn Sample.flags) = Some (out, st') /\
    leaked Sample.healthy (log st') = [] /\
    forall n,
      In n (leaked Sample.healthy (log st')) ->
      In n (leaked Sample.healthy (log (loggedIn Sample.flags))) \/
      unreadBody Sample.healthy n.
Proof.
  assert (HList : exists out st',
             List Sample.healthy 2 "tok" (tagsURL Sample.flags) []
               (loggedIn Sample.flags) = Some (out, st') /\
             leaked Sample.healthy (log st') = [])
    by (eexists; eexists; split; vm_compute; reflexivity).
  destruct HList as (out & st' & HList & Hleak).
  exists out, st'. split; [exact HList|]. split; [exact Hleak|].
  exact (List_leaks_only_unread_bodies Sample.healthy 2 "tok"
           (tagsURL Sample.flags) [] (loggedIn Sample.flags) out st' HList).
Defined.

(** ** Exit codes *)

Section ExitFacts.

Variable E : Env.
Variable f : Flags.
Variable token : string.
Variable threshold : Duration.

Lemma reapTag_outcome (tag : Tag) (st : State) (r : option Z) (st' : State) :
  reapTag E f token threshold tag st = (r, st') ->
  exists lines,
    printed (log st') = printed (log st) ++ lines /\
    match r with
    | None => forallb (fun l => negb (fatalDiagnostic l)) lines = true
    | Some code => explainsExit code lines /\ code = 1
    end.
Proof.
  intros Hrun. destruct (threshold <? ageAt E (nNow st) tag) eqn:Hsel.
  - rewrite (reapTag_selected E f token threshold tag st Hsel) in Hrun.
    destruct (url_Parse E (deleteURL f (Name tag))); simpl in Hrun.
    + unfold client_Do in Hrun. cbn [nDo nNow log announced] in Hrun.
      destruct (roundTrip E (nDo st) (deleteOf f token tag)) as [err|rsp].
      * inversion Hrun; subst. eexists. split; [printed_tail|].
        simpl. split; [|reflexivity]. left. split; [reflexivity|].
        eexists [_]. eexists. repeat split.
      * destruct (StatusCode rsp =? StatusNoContent);
          inversion Hrun; subst; eexists; (split; [printed_tail|]);
          reflexivity.
    + inversion Hrun; subst. eexists. split; [printed_tail|].
      simpl. split; [|reflexivity]. left. split; [reflexivity|].
      eexists [_]. eexists. repeat split.
  - rewrite (reapTag_retained E f token threshold tag st Hsel) in Hrun.
    inversion Hrun; subst. exists []. split; [printed_tail|reflexivity].
Qed.

Lemma reap_outcome (tags : TagList) :
  forall st r st',
    reap E f token threshold tags st = (r, st') ->
    exists lines,
      printed (log st') = printed (log st) ++ lines /\
      explainsExit (match r with Some code => code | None => 0 end) lines.
Proof.
  induction tags as [|tag rest IH]; intros st r st' Hrun; simpl in Hrun.
  - inversion Hrun; subst. exists []. rewrite app_nil_r.
    split; [reflexivity|]. right. split; reflexivity.
  - destruct (reapTag E f token threshold tag st) as [r1 st1] eqn:Hstep.
    destruct (reapTag_outcome tag st r1 st1 Hstep) as (l1 & Hp1 & Hout1).
    destruct r1 as [code|].
    + inversion Hrun; subst. exists l1. split; [exact Hp1|apply Hout1].
    + destruct (IH _ _ _ Hrun) as (l2 & Hp2 & Hout2).
      exists (l1 ++ l2). rewrite Hp2, Hp1, <- app_assoc.
      split; [reflexivity|].
      destruct Hout2 as [(Hc & before & l & -> & Hl & Hb)|(Hc & Hb)].
      * left. split; [exact Hc|]. exists (l1 ++ before), l.
        rewrite app_assoc, forallb_app, Hout1, Hb. repeat split. exact Hl.
      * right. split; [exact Hc|]. rewrite forallb_app, Hout1, Hb. reflexivity.
Qed.

End ExitFacts.

(** X11. Once the command line has been parsed, the exit code is 0 or 1
    and the printed lines explain it: the process exits with code 1 exactly
    when the last line it printed is one of the fatal diagnostics
    (threshold, login or delete failure), and no earlier line is; when it
    exits with code 0 it has printed none of them.  (A command line that
    [flag.Parse] rejects exits with status 2 before [main] as embedded here
    starts.) *)
Theorem main_exit_code_is_explained (E : Env) (fuel : nat) (f : Flags)
    (code : Z) (st : State) :
  main E fuel f = Some (code, st) ->
  explainsExit code (printed (log st)).
Proof.
  assert (Hone : forall evs l,
             printed evs = [] -> fatalDiagnostic l = true ->
             explainsExit 1 (printed (evs ++ [EvPrint l]))).
  { intros evs l Hevs Hl. rewrite printed_app, Hevs. left.
    split; [reflexivity|]. exists [], l. repeat split. exact Hl. }
  unfold main.
  destruct (time_ParseDuration E (thresholdStr f)) as [threshold|] eqn:Hthr.
  2:{ intros H. inversion H; subst. apply Hone; reflexivity. }
  destruct (url_Parse E loginURL) eqn:Hurl; simpl.
  2:{ intros H. inversion H; subst. apply Hone; reflexivity. }
  unfold client_Do. cbn [nDo nNow log initState].
  destruct (roundTrip E 0 (loginRequest f)) as [err|rsp] eqn:Hrt.
  { intros H. inversion H; subst. apply Hone; reflexivity. }
  destruct (Body rsp) as [err|body] eqn:Hb.
  { intros H. inversion H; subst. apply Hone; reflexivity. }
  destruct (json_Unmarshal_Auth body) as [err|[token]] eqn:Hauth.
  { intros H. inversion H; subst. apply Hone; reflexivity. }
  cbn [Token].
  destruct (List E fuel token (tagsURL f) [] _)
    as [[[tags err] st3]|] eqn:HList; [|discriminate].
  destruct (List_requests E fuel token (tagsURL f) [] (loggedIn f) _ _ HList)
    as (Hprinted & _).
  simpl in Hprinted. destruct err as [e|].
  - intros H. inversion H; subst. cbn [Println emit log].
    rewrite printed_app, Hprinted. right. split; reflexivity.
  - destruct (reap E f token threshold tags st3) as [r st4] eqn:Hreap.
    destruct (reap_outcome E f token threshold tags st3 r st4 Hreap)
      as (lines & Hp & Hout).
    rewrite Hprinted in Hp. simpl in Hp.
    destruct r as [c|]; intros H; inversion H; subst; exact Hout.
Qed.

(** X11, on the transport failing at the first delete. *)
Lemma main_exit_code_is_explained_witness :
  exists st,
    main Sample.offline 2 Sample.flags = Some (1, st) /\
    explainsExit 1 (printed (log st)) /\
    printed (log st)
    = [DeletingTag "v1" 172800000000000;
       UnableToPerformDeleteRequest (NetError 111)].
Proof.
  assert (Hmain : exists st,
             main Sample.offline 2 Sample.flags = Some (1, st) /\
             printed (log st)
             = [DeletingTag "v1" 172800000000000;
                UnableToPerformDeleteRequest (NetError 111)])
    by (eexists; split; vm_compute; reflexivity).
  destruct Hmain as (st & Hmain & Hprinted). exists st.
  split; [exact Hmain|]. split; [|exact Hprinted].
  exact (main_exit_code_is_explained Sample.offline 2 Sample.flags 1 st Hmain).
Defined.
